(** * AI Ad Studio: the Gemini service client, the script view and the App
      state machine, embedded and verified.

    Sources embedded here:
    - [services/geminiService.ts]: the credential check at module load,
      [generateAdScript] and [generateAdVideo] (with its poll loop);
    - [components/AdDisplay.tsx]: the list of scene cards, the copied
      text and the video section;
    - [components/ImageUploader.tsx]: the choice of a file;
    - [App.tsx]: the state of the [App] component, its handlers (the
      asynchronous ones split at their [await]), the panel gating, and
      the sessions they make;
    - [types.ts]: [Scene] and [AdScript].

    JavaScript strings are modelled by [string] (code units below 256),
    promises by an effect type that records the observable events of a
    call and how it completes. *)

From Stdlib Require Import List String Ascii ZArith Lia Bool Arith.
From Stdlib Require Import DecimalString.
Import ListNotations.

Local Open Scope string_scope.

#[local] Set Warnings "-register-all,-notation-for-abbreviation".

(* ===================================================================== *)
(** ** The JavaScript fragment the sources rely on *)
(* ===================================================================== *)

Module Js.

(** [s.startsWith(p)] *)
Definition startsWith (p s : string) : bool := String.prefix p s.

(** [hay.includes(needle)]: [needle] occurs in [hay] at some position. *)
Fixpoint includes (needle hay : string) : bool :=
  String.prefix needle hay ||
  match hay with
  | EmptyString => false
  | String _ rest => includes needle rest
  end.

(** White space and line terminators of ECMAScript among the code units
    below 256: TAB, LF, VT, FF, CR, SP and NBSP. *)
Definition is_white_space (c : ascii) : bool :=
  let n := nat_of_ascii c in
  (Nat.leb 9 n && Nat.leb n 13) || Nat.eqb n 32 || Nat.eqb n 160.

Fixpoint trimStart (s : string) : string :=
  match s with
  | EmptyString => EmptyString
  | String c rest => if is_white_space c then trimStart rest else s
  end.

(** [trimEnd] keeps a character when it is not white space or when
    something survives after it. *)
Fixpoint trimEnd (s : string) : string :=
  match s with
  | EmptyString => EmptyString
  | String c rest =>
      match trimEnd rest with
      | EmptyString => if is_white_space c then EmptyString else String c EmptyString
      | kept => String c kept
      end
  end.

(** [s.trim()] *)
Definition trim (s : string) : string := trimEnd (trimStart s).

(** Truthiness of a string: only the empty string is falsy. *)
Definition truthy_string (s : string) : bool :=
  match s with EmptyString => false | _ => true end.

(** Truthiness of a [string | undefined] or [string | null] value. *)
Definition truthy (v : option string) : bool :=
  match v with Some s => truthy_string s | None => false end.

(** Truthiness of a [boolean | undefined] value. *)
Definition truthy_bool (v : option bool) : bool :=
  match v with Some b => b | None => false end.

(** [a || b] on strings. *)
Definition or_else (a b : string) : string :=
  if truthy_string a then a else b.

(** Interpolation [`${v}`] of a [string | undefined] value. *)
Definition interpolate (v : option string) : string :=
  match v with Some s => s | None => "undefined" end.

(** Interpolation of an integer-valued number, as JavaScript prints it
    for integers of magnitude below 10^21 that a double holds exactly. *)
Definition number_to_string (z : Z) : string :=
  NilEmpty.string_of_int (Z.to_int z).

(** Values produced by [JSON.parse]; numbers are restricted to the
    integers (exact ones: no rounding to a double), which is what the
    response schema asks for. *)
Inductive Value : Type :=
| VNull
| VBool (b : bool)
| VNum (z : Z)
| VStr (s : string)
| VArr (items : list Value)
| VObj (fields : list (string * Value)).

(** Property read [o.k]: the last binding of a repeated key wins, as in
    the object [JSON.parse] builds. *)
Fixpoint get (k : string) (fields : list (string * Value)) : option Value :=
  match fields with
  | [] => None
  | (k', v) :: rest =>
      match get k rest with
      | Some later => Some later
      | None => if String.eqb k k' then Some v else None
      end
  end.

(** An [Error] object.  [status] is the HTTP status that the SDK's
    [ApiError] subclass carries; [new Error(msg)] has none. *)
Record Error : Type := mkError {
  message : string;
  status : option Z
}.

Definition new_Error (msg : string) : Error :=
  {| message := msg; status := None |}.

(** Anything a [throw] or a rejected promise may carry. *)
Inductive Thrown : Type :=
| ThrownError (e : Error)
| ThrownValue (v : Value).

(** [error instanceof Error && error.message.includes(needle)] *)
Definition is_error_including (needle : string) (t : Thrown) : bool :=
  match t with
  | ThrownError e => includes needle (message e)
  | ThrownValue _ => false
  end.

(** The [TypeError] V8 raises for [undefined.trim()]. *)
Definition trim_of_undefined : Thrown :=
  ThrownError (new_Error "Cannot read properties of undefined (reading 'trim')").

End Js.

(* ===================================================================== *)
(** ** A reader for JSON texts *)
(* ===================================================================== *)

(** [JSON.parse] belongs to the engine; the service is verified for any
    behaviour of it.  This reader of the integer-only fragment of JSON
    (no [\u] escapes, no fractions or exponents) stands for it when a
    statement is evaluated on a concrete response text. *)
Module JsonReader.

Import Js.

Local Open Scope char_scope.

Definition is_json_space (c : ascii) : bool :=
  Ascii.eqb c " " || Ascii.eqb c (ascii_of_nat 9)
  || Ascii.eqb c (ascii_of_nat 10) || Ascii.eqb c (ascii_of_nat 13).

Fixpoint skip_space (cs : list ascii) : list ascii :=
  match cs with
  | c :: rest => if is_json_space c then skip_space rest else cs
  | [] => []
  end.

Fixpoint strip (p cs : list ascii) : option (list ascii) :=
  match p, cs with
  | [], _ => Some cs
  | a :: p', c :: cs' => if Ascii.eqb a c then strip p' cs' else None
  | _ :: _, [] => None
  end.

Definition quote : ascii := ascii_of_nat 34.
Definition backslash : ascii := ascii_of_nat 92.

Definition unescape (c : ascii) : option ascii :=
  if Ascii.eqb c quote then Some quote
  else if Ascii.eqb c backslash then Some backslash
  else if Ascii.eqb c "/" then Some "/"
  else if Ascii.eqb c "b" then Some (ascii_of_nat 8)
  else if Ascii.eqb c "f" then Some (ascii_of_nat 12)
  else if Ascii.eqb c "n" then Some (ascii_of_nat 10)
  else if Ascii.eqb c "r" then Some (ascii_of_nat 13)
  else if Ascii.eqb c "t" then Some (ascii_of_nat 9)
  else None.

(** The characters of a string literal, after its opening quote. *)
Fixpoint string_body (fuel : nat) (cs : list ascii) : option (string * list ascii) :=
  match fuel with
  | O => None
  | S fuel' =>
      match cs with
      | [] => None
      | c :: rest =>
          if Ascii.eqb c quote then Some (EmptyString, rest)
          else if Ascii.eqb c backslash then
            match rest with
            | e :: rest' =>
                match unescape e, string_body fuel' rest' with
                | Some c', Some (s, r) => Some (String c' s, r)
                | _, _ => None
                end
            | [] => None
            end
          else if Nat.ltb (nat_of_ascii c) 32 then None
          else
            match string_body fuel' rest with
            | Some (s, r) => Some (String c s, r)
            | None => None
            end
      end
  end.

Definition digit (c : ascii) : option Z :=
  let n := nat_of_ascii c in
  if Nat.leb 48 n && Nat.leb n 57 then Some (Z.of_nat (n - 48)) else None.

Fixpoint digits (acc : Z) (cs : list ascii) : Z * list ascii :=
  match cs with
  | c :: rest =>
      match digit c with
      | Some d => digits (10 * acc + d) rest
      | None => (acc, cs)
      end
  | [] => (acc, [])
  end.

Definition ends_integer (rest : list ascii) : bool :=
  match rest with
  | c :: _ => negb (Ascii.eqb c "." || Ascii.eqb c "e" || Ascii.eqb c "E")
  | [] => true
  end.

(** An integer literal without a sign: no leading zero, and neither a
    fraction nor an exponent after it. *)
Definition natural (cs : list ascii) : option (Z * list ascii) :=
  match cs with
  | c :: rest =>
      match digit c with
      | Some d =>
          let '(z, rest') := if Z.eqb d 0 then (0%Z, rest) else digits d rest in
          match rest' with
          | c' :: _ =>
              match digit c' with
              | Some _ => None
              | None => if ends_integer rest' then Some (z, rest') else None
              end
          | [] => Some (z, [])
          end
      | None => None
      end
  | [] => None
  end.

Definition number (cs : list ascii) : option (Z * list ascii) :=
  match cs with
  | c :: rest =>
      if Ascii.eqb c "-" then
        match natural rest with
        | Some (z, r) => Some (Z.opp z, r)
        | None => None
        end
      else natural cs
  | [] => None
  end.

Definition chars (s : string) : list ascii := list_ascii_of_string s.

Fixpoint value (fuel : nat) (cs : list ascii) {struct fuel}
  : option (Value * list ascii) :=
  match fuel with
  | O => None
  | S fuel' =>
      match skip_space cs with
      | [] => None
      | c :: rest =>
          if Ascii.eqb c quote then
            match string_body fuel rest with
            | Some (s, r) => Some (VStr s, r)
            | None => None
            end
          else if Ascii.eqb c "[" then
            match skip_space rest with
            | c' :: r =>
                if Ascii.eqb c' "]" then Some (VArr [], r)
                else match elements fuel' rest with
                     | Some (vs, r') => Some (VArr vs, r')
                     | None => None
                     end
            | [] => None
            end
          else if Ascii.eqb c "{" then
            match skip_space rest with
            | c' :: r =>
                if Ascii.eqb c' "}" then Some (VObj [], r)
                else match members fuel' rest with
                     | Some (fs, r') => Some (VObj fs, r')
                     | None => None
                     end
            | [] => None
            end
          else
            match strip (chars "null") (c :: rest),
                  strip (chars "true") (c :: rest),
                  strip (chars "false") (c :: rest) with
            | Some r, _, _ => Some (VNull, r)
            | _, Some r, _ => Some (VBool true, r)
            | _, _, Some r => Some (VBool false, r)
            | None, None, None =>
                match number (c :: rest) with
                | Some (z, r) => Some (VNum z, r)
                | None => None
                end
            end
      end
  end

with elements (fuel : nat) (cs : list ascii) {struct fuel}
  : option (list Value * list ascii) :=
  match fuel with
  | O => None
  | S fuel' =>
      match value fuel' cs with
      | Some (v, r) =>
          match skip_space r with
          | c :: r' =>
              if Ascii.eqb c "," then
                match elements fuel' r' with
                | Some (vs, r'') => Some (v :: vs, r'')
                | None => None
                end
              else if Ascii.eqb c "]" then Some ([v], r')
              else None
          | [] => None
          end
      | None => None
      end
  end

with members (fuel : nat) (cs : list ascii) {struct fuel}
  : option (list (string * Value) * list ascii) :=
  match fuel with
  | O => None
  | S fuel' =>
      match skip_space cs with
      | q :: r0 =>
          if Ascii.eqb q quote then
            match string_body fuel r0 with
            | Some (k, r1) =>
                match skip_space r1 with
                | colon :: r2 =>
                    if Ascii.eqb colon ":" then
                      match value fuel' r2 with
                      | Some (v, r3) =>
                          match skip_space r3 with
                          | c :: r4 =>
                              if Ascii.eqb c "," then
                                match members fuel' r4 with
                                | Some (fs, r5) => Some ((k, v) :: fs, r5)
                                | None => None
                                end
                              else if Ascii.eqb c "}" then Some ([(k, v)], r4)
                              else None
                          | [] => None
                          end
                      | None => None
                      end
                    else None
                | [] => None
                end
            | None => None
            end
          else None
      | [] => None
      end
  end.

(** A text written with an apostrophe wherever JSON has a double quote. *)
Fixpoint text (s : string) : string :=
  match s with
  | EmptyString => EmptyString
  | String c rest => String (if Ascii.eqb c "'" then quote else c) (text rest)
  end.

Definition syntax_error : Error :=
  new_Error "Unexpected token in JSON".

(** The whole text must be one value, white space apart. *)
Definition parse (text : string) : Error + Value :=
  match value (S (String.length text)) (chars text) with
  | Some (v, rest) =>
      match skip_space rest with
      | [] => inr v
      | _ :: _ => inl syntax_error
      end
  | None => inl syntax_error
  end.

End JsonReader.

(* ===================================================================== *)
(** ** Effects: what an asynchronous call does and how it completes *)
(* ===================================================================== *)

Module Effect.

(** How a call completes.  [Pending] is a call that is still waiting when
    the observation stops; only the poll loop can produce it. *)
Inductive Completion (A : Type) : Type :=
| Returned (a : A)
| Threw (t : Js.Thrown)
| Pending.

Arguments Returned {A} a.
Arguments Threw {A} t.
Arguments Pending {A}.

Section Computation.

Context {Event : Type}.

(** A computation: the events it emitted, in order, and its completion. *)
Definition M (A : Type) : Type := (list Event * Completion A)%type.

Definition ret {A} (a : A) : M A := ([], Returned a).

Definition throw {A} (t : Js.Thrown) : M A := ([], Threw t).

Definition pending {A} : M A := ([], Pending).

Definition emit (e : Event) : M unit := ([e], Returned tt).

Definition bind {A B} (m : M A) (k : A -> M B) : M B :=
  match snd m with
  | Returned a => ((fst m ++ fst (k a))%list, snd (k a))
  | Threw t => (fst m, Threw t)
  | Pending => (fst m, Pending)
  end.

(** [try { body } catch (error) { handler }] *)
Definition try_catch {A} (body : M A) (handler : Js.Thrown -> M A) : M A :=
  match snd body with
  | Threw t => ((fst body ++ fst (handler t))%list, snd (handler t))
  | _ => body
  end.

(** [await p] for a promise that settles with [r]. *)
Definition settle {A} (r : Js.Thrown + A) : M A :=
  match r with
  | inl t => throw t
  | inr a => ret a
  end.

Definition events {A} (m : M A) : list Event := fst m.
Definition completion {A} (m : M A) : Completion A := snd m.

End Computation.

Arguments M : clear implicits.

End Effect.

Declare Scope eff_scope.
Delimit Scope eff_scope with eff.
Notation "x <- m ;; k" := (Effect.bind m (fun x => k))
  (at level 61, m at next level, right associativity) : eff_scope.
Notation "m ;;; k" := (Effect.bind m (fun _ => k))
  (at level 61, right associativity) : eff_scope.

(* ===================================================================== *)
(** ** [types.ts] *)
(* ===================================================================== *)

Module Types.

Record Scene : Type := mkScene {
  sceneNumber : Z;
  setting : string;
  action : string;
  dialogue : string;
  sound : string
}.

Record AdScript : Type := mkAdScript {
  title : string;
  tagline : string;
  scenes : list Scene
}.

Definition get_string (k : string) (fields : list (string * Js.Value)) : option string :=
  match Js.get k fields with
  | Some (Js.VStr s) => Some s
  | _ => None
  end.

Definition get_number (k : string) (fields : list (string * Js.Value)) : option Z :=
  match Js.get k fields with
  | Some (Js.VNum z) => Some z
  | _ => None
  end.

(** When a run-time value really has the shape of [Scene]. *)
Definition as_Scene (v : Js.Value) : option Scene :=
  match v with
  | Js.VObj f =>
      match get_number "sceneNumber" f, get_string "setting" f,
            get_string "action" f, get_string "dialogue" f,
            get_string "sound" f with
      | Some n, Some se, Some a, Some d, Some so => Some (mkScene n se a d so)
      | _, _, _, _, _ => None
      end
  | _ => None
  end.

Fixpoint all_Scenes (items : list Js.Value) : option (list Scene) :=
  match items with
  | [] => Some []
  | v :: rest =>
      match as_Scene v, all_Scenes rest with
      | Some s, Some ss => Some (s :: ss)
      | _, _ => None
      end
  end.

(** When a run-time value really has the shape of [AdScript].  The
    assertion [JSON.parse(jsonText) as AdScript] does not check this. *)
Definition as_AdScript (v : Js.Value) : option AdScript :=
  match v with
  | Js.VObj f =>
      match get_string "title" f, get_string "tagline" f, Js.get "scenes" f with
      | Some t, Some g, Some (Js.VArr items) =>
          option_map (mkAdScript t g) (all_Scenes items)
      | _, _, _ => None
      end
  | _ => None
  end.

(** The [sceneNumber] of each element of [scenes] in a run-time value. *)
Definition sceneNumbers_in (v : Js.Value) : list (option Z) :=
  match v with
  | Js.VObj f =>
      match Js.get "scenes" f with
      | Some (Js.VArr items) =>
          map (fun item => match item with
                           | Js.VObj g => get_number "sceneNumber" g
                           | _ => None
                           end) items
      | _ => []
      end
  | _ => []
  end.

(** "Sequential from 1": the scene numbers are 1, 2, ..., in array order. *)
Fixpoint numbered_from (start : Z) (ss : list Scene) : bool :=
  match ss with
  | [] => true
  | s :: rest => Z.eqb (sceneNumber s) start && numbered_from (start + 1) rest
  end.

Definition sequential_from_1 (a : AdScript) : bool :=
  numbered_from 1 (scenes a).

End Types.

(* ===================================================================== *)
(** ** [services/geminiService.ts] *)
(* ===================================================================== *)

Module GeminiService.

Import Effect.
Local Open Scope eff_scope.

(** *** What the SDK exchanges with the remote service *)

(** The response schema language ([Type.OBJECT], [Type.ARRAY], ...). *)
Inductive Schema : Type :=
| OBJECT (properties : list (string * Schema)) (required : list string)
| ARRAY (description : string) (items : Schema)
| STRING (description : string)
| INTEGER (description : string).

Record InlineData : Type := { data : string; inline_mimeType : string }.

Inductive Part : Type :=
| InlinePart (inlineData : InlineData)
| TextPart (text : string).

(** [temperature: 0.8] and [topP: 0.9] are kept in tenths. *)
Record GenerationConfig : Type := {
  responseMimeType : string;
  responseSchema : Schema;
  temperature_tenths : Z;
  topP_tenths : Z
}.

Record ContentRequest : Type := {
  content_model : string;
  parts : list Part;
  config : GenerationConfig
}.

(** [response.text] is [string | undefined] in the SDK. *)
Record ContentResponse : Type := { response_text : option string }.

Record Image : Type := { imageBytes : string; image_mimeType : string }.

Record VideoRequest : Type := {
  video_model : string;
  video_prompt : string;
  image : Image;
  numberOfVideos : Z
}.

Record Video : Type := { uri : option string }.
Record GeneratedVideo : Type := { video : option Video }.
Record VideosResponse : Type := { generatedVideos : option (list GeneratedVideo) }.

(** The handle of a long-running video generation. *)
Record Operation : Type := {
  name : string;
  done : option bool;
  response : option VideosResponse
}.

(** How the calls made through the client settle.  The answer to a status
    check may depend on how many checks came before it. *)
Record Sdk : Type := {
  generateContent : ContentRequest -> Js.Thrown + ContentResponse;
  generateVideos : VideoRequest -> Js.Thrown + Operation;
  getVideosOperation : nat -> Operation -> Js.Thrown + Operation
}.

Record ProcessEnv : Type := { API_KEY : option string }.

Record GoogleGenAI : Type := { apiKey : option string }.

Inductive LogValue : Type :=
| LogNothing
| LogDone (d : option bool)
| LogString (s : string).

(** The observable actions of the module. *)
Inductive Event : Type :=
| CallGenerateContent (req : ContentRequest)
| CallGenerateVideos (req : VideoRequest)
| CallGetVideosOperation (operation : Operation)
| SetTimeout (ms : Z)
| ConsoleLog (label : string) (value : LogValue)
| ConsoleError (label : string) (error : Js.Thrown).

(** *** Module load: the credential check and the client *)

Definition API_KEY_not_set : Js.Thrown :=
  Js.ThrownError (Js.new_Error "API_KEY environment variable not set").

(** The top level of the module: it throws, or binds [ai]. *)
Definition load (env : ProcessEnv) : Js.Thrown + GoogleGenAI :=
  if negb (Js.truthy (API_KEY env)) then inl API_KEY_not_set
  else inr {| apiKey := API_KEY env |}.

(** The [items] of [scenes] in [adScriptSchema]. *)
Definition sceneSchema : Schema :=
  OBJECT
    [ ("sceneNumber", INTEGER "The sequential number of the scene.");
      ("setting", STRING "The visual setting of the scene. (e.g., 'A vibrant, sunlit city park.').");
      ("action", STRING "A description of the main action and visuals in the scene.");
      ("dialogue", STRING "Any dialogue or voiceover in the scene. Use 'VO:' for voiceover. Use 'None' if no dialogue.");
      ("sound", STRING "Description of sound effects or music in the scene.") ]
    ["sceneNumber"; "setting"; "action"; "dialogue"; "sound"].

Definition adScriptSchema : Schema :=
  OBJECT
    [ ("title", STRING "A catchy, short title for the commercial. (e.g., 'Unleash the Sound').");
      ("tagline", STRING "A memorable tagline for the product. (e.g., 'Your World, Your Music.').");
      ("scenes",
        ARRAY "An array of scenes that make up the 30-second commercial." sceneSchema) ]
    ["title"; "tagline"; "scenes"].

(** What the remote service promises for a schema: the value has the
    stated type, and an object carries its required properties. *)
Fixpoint conforms (s : Schema) (v : Js.Value) {struct s} : bool :=
  match s, v with
  | STRING _, Js.VStr _ => true
  | INTEGER _, Js.VNum _ => true
  | ARRAY _ items, Js.VArr vs => forallb (conforms items) vs
  | OBJECT properties required, Js.VObj fields =>
      forallb (fun k => match Js.get k fields with Some _ => true | None => false end)
              required
      && (fix each (ps : list (string * Schema)) : bool :=
            match ps with
            | [] => true
            | (k, s') :: rest =>
                match Js.get k fields with
                | Some v' => conforms s' v'
                | None => true
                end && each rest
            end) properties
  | _, _ => false
  end.

Definition nl : string := String (ascii_of_nat 10) EmptyString.

Definition lines (ls : list string) : string := String.concat nl ls.

Definition rate_limit_exceeded : Js.Thrown :=
  Js.ThrownError (Js.new_Error "API rate limit exceeded. Please try again later.").

Definition script_generation_failed : Js.Thrown :=
  Js.ThrownError (Js.new_Error
    "Failed to generate ad script. The model may have returned an invalid response.").

Definition no_download_link : Js.Thrown :=
  Js.ThrownError (Js.new_Error
    "Video generation completed, but no download link was found.").

Definition quota_exceeded : Js.Thrown :=
  Js.ThrownError (Js.new_Error
    "API quota exceeded. Please check your plan and billing details, or try again later.").

Definition video_generation_failed : Js.Thrown :=
  Js.ThrownError (Js.new_Error
    "Failed to generate video ad. An unexpected error occurred.").

Section Exports.

(** The environment, the behaviour of the client's calls, and the
    engine's [JSON.parse] (which throws a [SyntaxError] with a message of
    the engine's choosing). *)
Variable env : ProcessEnv.
Variable sdk : Sdk.
Variable JSON_parse : string -> Js.Error + Js.Value.

Definition scriptPrompt (productDescription : string) : string :=
  lines
    [ EmptyString;
      "      You are a world-class creative director at a major advertising agency. ";
      "      Your task is to generate a short, punchy, and visually compelling 30-second commercial script based on the provided product image and description.";
      "      The script should be structured, creative, and ready for a production team.";
      "      The tone should be energetic and inspiring.";
      "      Ensure the output is a valid JSON object matching the provided schema.";
      EmptyString;
      "      Product Description: "
        ++ Js.or_else productDescription "No description provided. Analyze the image.";
      "    " ].

Definition scriptRequest (base64Image mimeType productDescription : string)
  : ContentRequest :=
  let imagePart :=
    InlinePart {| data := base64Image; inline_mimeType := mimeType |} in
  let textPart := TextPart (scriptPrompt productDescription) in
  {| content_model := "gemini-2.5-flash";
     parts := [imagePart; textPart];
     config := {| responseMimeType := "application/json";
                  responseSchema := adScriptSchema;
                  temperature_tenths := 8;
                  topP_tenths := 9 |} |}.

(** The [try] block of [generateAdScript]. *)
Definition generateAdScript_try (base64Image mimeType productDescription : string)
  : M Event Js.Value :=
  let req := scriptRequest base64Image mimeType productDescription in
  response <- (emit (CallGenerateContent req) ;;; settle (generateContent sdk req)) ;;
  jsonText <- match response_text response with
              | Some t => ret (Js.trim t)
              | None => throw Js.trim_of_undefined
              end ;;
  match JSON_parse jsonText with
  | inr v => ret v
  | inl syntax_error => throw (Js.ThrownError syntax_error)
  end.

(** The [catch] block of [generateAdScript]. *)
Definition generateAdScript_catch (error : Js.Thrown) : M Event Js.Value :=
  emit (ConsoleError "Gemini API call failed:" error) ;;;
  if Js.is_error_including "429" error then throw rate_limit_exceeded
  else throw script_generation_failed.

(** [generateAdScript]; [ai] is the client the module bound when it
    loaded. *)
Definition generateAdScript (ai : GoogleGenAI)
    (base64Image mimeType productDescription : string) : M Event Js.Value :=
  try_catch (generateAdScript_try base64Image mimeType productDescription)
            generateAdScript_catch.

Definition videoRequest (prompt base64Image mimeType : string) : VideoRequest :=
  {| video_model := "veo-2.0-generate-001";
     video_prompt := prompt;
     image := {| imageBytes := base64Image; image_mimeType := mimeType |};
     numberOfVideos := 1 |}.

(** The [while (!operation.done)] loop.  [fuel] bounds how many rounds are
    observed, [checks] counts the status checks already issued. *)
Fixpoint poll (fuel checks : nat) (operation : Operation) : M Event Operation :=
  if negb (Js.truthy_bool (done operation)) then
    match fuel with
    | O => pending
    | S fuel' =>
        emit (SetTimeout 10000) ;;;
        operation' <- (emit (CallGetVideosOperation operation) ;;;
                       settle (getVideosOperation sdk checks operation)) ;;
        emit (ConsoleLog "Polling... done:" (LogDone (done operation'))) ;;;
        poll fuel' (S checks) operation'
    end
  else ret operation.

(** [operation.response?.generatedVideos?.[0]?.video?.uri] *)
Definition downloadLink_of (operation : Operation) : option string :=
  match response operation with
  | Some r =>
      match generatedVideos r with
      | Some vs =>
          match nth_error vs 0 with
          | Some gv =>
              match video gv with
              | Some v => uri v
              | None => None
              end
          | None => None
          end
      | None => None
      end
  | None => None
  end.

(** The [try] block of [generateAdVideo]. *)
Definition generateAdVideo_try (fuel : nat) (prompt base64Image mimeType : string)
  : M Event string :=
  emit (ConsoleLog "Starting video generation..." LogNothing) ;;;
  let req := videoRequest prompt base64Image mimeType in
  operation <- (emit (CallGenerateVideos req) ;;; settle (generateVideos sdk req)) ;;
  emit (ConsoleLog "Video generation initiated, polling for result..." LogNothing) ;;;
  operation <- poll fuel 0 operation ;;
  let downloadLink := downloadLink_of operation in
  if negb (Js.truthy downloadLink) then throw no_download_link
  else
    emit (ConsoleLog "Video generated successfully:"
            (LogString (Js.interpolate downloadLink))) ;;;
    ret (Js.interpolate downloadLink ++ "&key=" ++ Js.interpolate (API_KEY env)).

(** The [catch] block of [generateAdVideo]. *)
Definition generateAdVideo_catch (error : Js.Thrown) : M Event string :=
  emit (ConsoleError "Video generation failed:" error) ;;;
  if Js.is_error_including "429" error
     || Js.is_error_including "RESOURCE_EXHAUSTED" error
  then throw quota_exceeded
  else throw video_generation_failed.

Definition generateAdVideo (ai : GoogleGenAI) (fuel : nat)
    (prompt base64Image mimeType : string) : M Event string :=
  try_catch (generateAdVideo_try fuel prompt base64Image mimeType)
            generateAdVideo_catch.

End Exports.

End GeminiService.

(* ===================================================================== *)
(** ** [components/AdDisplay.tsx]: the script section *)
(* ===================================================================== *)

Module AdDisplay.

Import Types.

(** Rendered elements; class names carry no behaviour and are left out. *)
Inductive Node : Type :=
| Text (s : string)
| Element (tag : string) (key : option Z) (children : list Node).

Definition field (label body : string) : Node :=
  Element "div" None
    [ Element "strong" None [Text label];
      Element "p" None [Text body] ].

(** The body of [adScript.scenes.map((scene) => ...)]. *)
Definition sceneCard (scene : Scene) : Node :=
  Element "div" (Some (sceneNumber scene))
    [ Element "h4" None
        [Text "SCENE "; Text (Js.number_to_string (sceneNumber scene))];
      Element "div" None
        [ field "Setting:" (setting scene);
          field "Sound:" (sound scene);
          field "Action:" (action scene);
          field "Dialogue / Voiceover:" (dialogue scene) ] ].

(** The [space-y-6] block: a heading, then one card per scene. *)
Definition scriptSection (adScript : AdScript) : Node :=
  Element "div" None
    (Element "h3" None [Text "Commercial Script"]
     :: map sceneCard (scenes adScript)).

(** *** Reading the rendered block, as a user or a test would *)

Definition children_of (n : Node) : list Node :=
  match n with
  | Element _ _ cs => cs
  | Text _ => []
  end.

Definition is_card (n : Node) : bool :=
  match n with
  | Element "div" (Some _) (Element "h4" _ _ :: _) => true
  | _ => false
  end.

(** The scene cards displayed, in document order. *)
Definition displayed_cards (section : Node) : list Node :=
  filter is_card (children_of section).

Fixpoint text_of (ns : list Node) : string :=
  match ns with
  | [] => EmptyString
  | Text s :: rest => s ++ text_of rest
  | Element _ _ _ :: rest => text_of rest
  end.

(** The heading of a card, e.g. [SCENE 2]. *)
Definition heading_of (card : Node) : string :=
  match card with
  | Element _ _ (Element "h4" _ ts :: _) => text_of ts
  | _ => EmptyString
  end.

Definition field_body (n : Node) : option string :=
  match n with
  | Element _ _ [_; Element "p" _ [Text body]] => Some body
  | _ => None
  end.

(** The scene a card shows. *)
Definition scene_of (card : Node) : option Scene :=
  match card with
  | Element _ (Some n) [_; Element _ _ [fs; fo; fa; fd]] =>
      match field_body fs, field_body fo, field_body fa, field_body fd with
      | Some se, Some so, Some a, Some d => Some (mkScene n se a d so)
      | _, _, _, _ => None
      end
  | _ => None
  end.

(** *** [formatScriptForCopy] *)

Definition nl : string := GeminiService.nl.

(** The text put on the clipboard: [text] grows by [+=], line by line. *)
Definition formatScriptForCopy (script : AdScript) : string :=
  let text := "Title: " ++ title script ++ nl in
  let text := text ++ ("Tagline: " ++ tagline script ++ nl ++ nl) in
  let text := text ++ ("--- SCRIPT ---" ++ nl ++ nl) in
  fold_left
    (fun text scene =>
       let text := text ++ ("SCENE " ++ Js.number_to_string (sceneNumber scene) ++ nl) in
       let text := text ++ ("SETTING: " ++ setting scene ++ nl) in
       let text := text ++ ("ACTION: " ++ action scene ++ nl) in
       let text := text ++ ("DIALOGUE: " ++ dialogue scene ++ nl) in
       text ++ ("SOUND: " ++ sound scene ++ nl ++ nl))
    (scenes script) text.

(** *** The video section *)

(** [s.replace(/\s+/g, '-')]: every maximal run of white space becomes one
    hyphen.  [in_run] tells that the previous character was white space. *)
Fixpoint replaceWhitespaceRuns (in_run : bool) (s : string) : string :=
  match s with
  | EmptyString => EmptyString
  | String c rest =>
      if Js.is_white_space c then
        if in_run then replaceWhitespaceRuns true rest
        else String "-" (replaceWhitespaceRuns true rest)
      else String c (replaceWhitespaceRuns false rest)
  end.

(** The [download] attribute of the link under the player. *)
Definition downloadName (adScript : AdScript) : string :=
  "ad-video-" ++ replaceWhitespaceRuns false (title adScript) ++ ".mp4".

(** The three conditional blocks of the video section. *)
Inductive VideoBlock : Type :=
| VideoLoader (message : string)
| VideoFailure (message : string)
| VideoPlayer (src : string) (download : string).

Definition videoSection (adScript : AdScript) (isVideoLoading : bool)
    (videoLoadingMessage : string) (videoUrl videoError : option string)
  : list VideoBlock :=
  ((if isVideoLoading then [VideoLoader videoLoadingMessage] else [])
   ++ (match videoError with
       | Some msg =>
           if Js.truthy_string msg && negb isVideoLoading
           then [VideoFailure msg] else []
       | None => []
       end)
   ++ (match videoUrl with
       | Some url =>
           if Js.truthy_string url && negb isVideoLoading
           then [VideoPlayer url (downloadName adScript)] else []
       | None => []
       end))%list.

(** [disabled={isVideoLoading}] on the Generate Video button. *)
Definition generateVideoDisabled (isVideoLoading : bool) : bool := isVideoLoading.

End AdDisplay.

(* ===================================================================== *)
(** ** [App.tsx]: state, handlers and panels *)
(* ===================================================================== *)

Module App.

Import Types.

Record File : Type := { file_name : string; file_type : string }.

(** The [useState] cells of [App], [loadingIntervalRef.current], and the
    interval timers that are running. *)
Record State : Type := mkState {
  imageFile : option File;
  imagePreview : option string;
  productDescription : string;
  adScript : option AdScript;
  isLoading : bool;
  error : option string;
  isVideoLoading : bool;
  videoLoadingMessage : string;
  videoUrl : option string;
  videoError : option string;
  loadingIntervalRef : option nat;
  intervals : list nat
}.

Definition LOADING_MESSAGES : list string :=
  [ "Warming up the virtual cameras...";
    "Storyboarding your vision...";
    "Setting up the digital lighting...";
    "Directing the AI actors...";
    "Rendering the first cut...";
    "Adding special effects and sound...";
    "Finalizing the masterpiece...";
    "This can take a few minutes, thanks for your patience!" ].

Definition initial : State :=
  mkState None None EmptyString None false None
          false (hd EmptyString LOADING_MESSAGES) None None None [].

Definition setImageFile (v : option File) (s : State) : State :=
  mkState v (imagePreview s) (productDescription s) (adScript s) (isLoading s)
          (error s) (isVideoLoading s) (videoLoadingMessage s) (videoUrl s)
          (videoError s) (loadingIntervalRef s) (intervals s).

Definition setImagePreview (v : option string) (s : State) : State :=
  mkState (imageFile s) v (productDescription s) (adScript s) (isLoading s)
          (error s) (isVideoLoading s) (videoLoadingMessage s) (videoUrl s)
          (videoError s) (loadingIntervalRef s) (intervals s).

Definition setProductDescription (v : string) (s : State) : State :=
  mkState (imageFile s) (imagePreview s) v (adScript s) (isLoading s)
          (error s) (isVideoLoading s) (videoLoadingMessage s) (videoUrl s)
          (videoError s) (loadingIntervalRef s) (intervals s).

Definition setAdScript (v : option AdScript) (s : State) : State :=
  mkState (imageFile s) (imagePreview s) (productDescription s) v (isLoading s)
          (error s) (isVideoLoading s) (videoLoadingMessage s) (videoUrl s)
          (videoError s) (loadingIntervalRef s) (intervals s).

Definition setIsLoading (v : bool) (s : State) : State :=
  mkState (imageFile s) (imagePreview s) (productDescription s) (adScript s) v
          (error s) (isVideoLoading s) (videoLoadingMessage s) (videoUrl s)
          (videoError s) (loadingIntervalRef s) (intervals s).

Definition setError (v : option string) (s : State) : State :=
  mkState (imageFile s) (imagePreview s) (productDescription s) (adScript s)
          (isLoading s) v (isVideoLoading s) (videoLoadingMessage s) (videoUrl s)
          (videoError s) (loadingIntervalRef s) (intervals s).

Definition setIsVideoLoading (v : bool) (s : State) : State :=
  mkState (imageFile s) (imagePreview s) (productDescription s) (adScript s)
          (isLoading s) (error s) v (videoLoadingMessage s) (videoUrl s)
          (videoError s) (loadingIntervalRef s) (intervals s).

Definition setVideoLoadingMessage (v : string) (s : State) : State :=
  mkState (imageFile s) (imagePreview s) (productDescription s) (adScript s)
          (isLoading s) (error s) (isVideoLoading s) v (videoUrl s)
          (videoError s) (loadingIntervalRef s) (intervals s).

Definition setVideoUrl (v : option string) (s : State) : State :=
  mkState (imageFile s) (imagePreview s) (productDescription s) (adScript s)
          (isLoading s) (error s) (isVideoLoading s) (videoLoadingMessage s) v
          (videoError s) (loadingIntervalRef s) (intervals s).

Definition setVideoError (v : option string) (s : State) : State :=
  mkState (imageFile s) (imagePreview s) (productDescription s) (adScript s)
          (isLoading s) (error s) (isVideoLoading s) (videoLoadingMessage s)
          (videoUrl s) v (loadingIntervalRef s) (intervals s).

(** [clearInterval(id)] *)
Definition clearInterval (id : nat) (s : State) : State :=
  mkState (imageFile s) (imagePreview s) (productDescription s) (adScript s)
          (isLoading s) (error s) (isVideoLoading s) (videoLoadingMessage s)
          (videoUrl s) (videoError s) (loadingIntervalRef s)
          (filter (fun t => negb (Nat.eqb t id)) (intervals s)).

(** [loadingIntervalRef.current = setInterval(...)], with a fresh id. *)
Definition startLoadingInterval (s : State) : State :=
  let id := S (fold_right Nat.max 0 (intervals s)) in
  mkState (imageFile s) (imagePreview s) (productDescription s) (adScript s)
          (isLoading s) (error s) (isVideoLoading s) (videoLoadingMessage s)
          (videoUrl s) (videoError s) (Some id) (id :: intervals s).

(** [if (loadingIntervalRef.current) clearInterval(loadingIntervalRef.current)];
    a timer id is never 0, so a set reference is truthy. *)
Definition clearLoadingInterval (s : State) : State :=
  match loadingIntervalRef s with
  | Some id => clearInterval id s
  | None => s
  end.

(** Statements of a handler run top to bottom. *)
Definition run (steps : list (State -> State)) (s : State) : State :=
  fold_left (fun acc step => step acc) steps s.

Definition handleReset : State -> State :=
  run [ setProductDescription EmptyString;
        setAdScript None;
        setError None;
        setIsLoading false;
        setVideoUrl None;
        setVideoError None;
        setIsVideoLoading false;
        clearLoadingInterval ].

Definition handleHardReset : State -> State :=
  run [ handleReset;
        setImageFile None;
        setImagePreview None ].

(** [handleFileSelect], up to its return: the file is set, the read is
    started, and everything but the image is reset.  The preview is not
    written here. *)
Definition handleFileSelect_begin (file : File) : State -> State :=
  run [setImageFile (Some file); handleReset].

(** [reader.onloadend], whenever the read ends and in whatever state [App]
    is then: [reader.result] is the data URL, or [null] when the read
    failed. *)
Definition onloadend (result : option string) : State -> State :=
  setImagePreview result.

(** [err instanceof Error ? err.message : fallback] *)
Definition message_or (fallback : string) (err : Js.Thrown) : string :=
  match err with
  | Js.ThrownError e => Js.message e
  | Js.ThrownValue _ => fallback
  end.

(** An [async] handler runs up to its first [await] when the button is
    clicked, and goes on when the awaited calls settle, on the state that
    the other handlers have left by then.  Each one is therefore two
    state changes. *)

(** [handleGenerateScript] up to its first [await]. *)
Definition handleGenerateScript_begin (s : State) : State :=
  match imageFile s with
  | None => setError (Some "Please upload a product image first.") s
  | Some _ => run [setIsLoading true; setError None; setAdScript None] s
  end.

(** [handleGenerateScript] from the moment the awaited calls
    ([fileToBase64], then [generateAdScript]) settle: the rest of [try],
    or [catch], then [finally].  [result] ranges over what the cell can
    hold by its type, [AdScript | null]: [generateAdScript] hands on
    whatever [JSON.parse] gave, which may be [null]; a returned value that
    is neither is outside this model. *)
Definition handleGenerateScript_settle
    (outcome : Js.Thrown + option AdScript) (s : State) : State :=
  setIsLoading false
    (match outcome with
     | inr result => setAdScript result s
     | inl err =>
         setError (Some (message_or
           "An unknown error occurred. Please check the console." err)) s
     end).

Definition sceneDescriptions (a : AdScript) : string :=
  String.concat ". " (map action (scenes a)).

Definition videoPrompt (a : AdScript) : string :=
  GeminiService.lines
    [ EmptyString;
      "          Create a dynamic, visually stunning 30-second commercial video based on this concept.";
      "          Title: " ++ title a;
      "          Tagline: " ++ tagline a;
      "          Key Visuals: " ++ sceneDescriptions a;
      "          The style should be modern, energetic, and cinematic, matching the product in the provided image.";
      "        " ].

(** [handleGenerateVideo] up to its first [await]. *)
Definition handleGenerateVideo_begin (s : State) : State :=
  match adScript s, imageFile s with
  | Some _, Some _ =>
      run [ setIsVideoLoading true;
            setVideoError None;
            setVideoUrl None;
            setVideoLoadingMessage (hd EmptyString LOADING_MESSAGES);
            startLoadingInterval ] s
  | _, _ =>
      setVideoError
        (Some "Cannot generate video without an ad script and product image.") s
  end.

(** [handleGenerateVideo] from the moment the awaited calls
    ([fileToBase64], then [generateAdVideo] on [videoPrompt]) settle. *)
Definition handleGenerateVideo_settle
    (outcome : Js.Thrown + string) (s : State) : State :=
  run [setIsVideoLoading false; clearLoadingInterval]
    (match outcome with
     | inr resultUrl => setVideoUrl (Some resultUrl) s
     | inl err =>
         setVideoError (Some (message_or
           "An unknown error occurred while generating the video." err)) s
     end).

(** *** What [App] renders *)

Inductive Handler : Type :=
| HandleReset
| HandleHardReset
| HandleGenerateScript
| HandleGenerateVideo.

(** The four conditional blocks of [<main>], with the props and click
    handlers that matter. *)
Inductive Panel : Type :=
| InputForm (preview : option string) (description : string)
            (onClear : Handler) (generateDisabled : bool)
| LoadingPanel
| ErrorPanel (msg : string) (onTryAgain : Handler)
| AdDisplayPanel (script : AdScript) (onReset : Handler)
                 (video : option string) (videoFailure : option string)
                 (videoLoading : bool).

Definition isSome {A} (o : option A) : bool :=
  match o with Some _ => true | None => false end.

Definition panels (s : State) : list Panel :=
  (if negb (isSome (adScript s)) && negb (isLoading s)
   then [InputForm (imagePreview s) (productDescription s) HandleHardReset
                   (negb (isSome (imageFile s)) || isLoading s)]
   else [])
  ++ (if isLoading s then [LoadingPanel] else [])
  ++ (match error s with
      | Some msg =>
          if Js.truthy_string msg && negb (isLoading s)
          then [ErrorPanel msg HandleHardReset] else []
      | None => []
      end)
  ++ (match adScript s with
      | Some a =>
          if negb (isLoading s)
          then [AdDisplayPanel a HandleReset (videoUrl s) (videoError s)
                               (isVideoLoading s)]
          else []
      | None => []
      end).

(** *** The rotating loading message *)

(** [l.indexOf(x)], counting from [i]. *)
Fixpoint indexOf_from (i : Z) (x : string) (l : list string) : Z :=
  match l with
  | [] => (-1)%Z
  | y :: rest => if String.eqb x y then i else indexOf_from (i + 1) x rest
  end.

Definition indexOf (x : string) (l : list string) : Z := indexOf_from 0 x l.

(** The updater handed to [setVideoLoadingMessage] by the interval.  The
    index is always in range, so the default of [nth] is never used. *)
Definition nextLoadingMessage (prev : string) : string :=
  let currentIndex := indexOf prev LOADING_MESSAGES in
  let nextIndex :=
    Z.rem (currentIndex + 1) (Z.of_nat (List.length LOADING_MESSAGES)) in
  nth (Z.to_nat nextIndex) LOADING_MESSAGES EmptyString.

(** One firing of the interval callback. *)
Definition loadingTick (s : State) : State :=
  setVideoLoadingMessage (nextLoadingMessage (videoLoadingMessage s)) s.

(** The props [App] hands to [AdDisplay], rendered by its video section. *)
Definition videoSection_of (a : AdScript) (s : State) : list AdDisplay.VideoBlock :=
  AdDisplay.videoSection a (isVideoLoading s) (videoLoadingMessage s)
                         (videoUrl s) (videoError s).

End App.

(* ===================================================================== *)
(** ** [components/ImageUploader.tsx] *)
(* ===================================================================== *)

Module ImageUploader.

Import App.

(** What a handler of the component does to the outside. *)
Inductive Call : Type :=
| OnFileSelect (file : File)
| Alert (message : string).

(** [handleFileChange(files)]: [files] is a [FileList] or [null]. *)
Definition handleFileChange (files : option (list File)) : list Call :=
  match files with
  | Some (file :: _) =>
      if Js.startsWith "image/" (file_type file)
      then [OnFileSelect file]
      else [Alert "Please upload an image file."]
  | Some [] => []
  | None => []
  end.

(** The drag handlers: the new [isDragging] and the calls made. *)
Definition onDragOver (isDragging : bool) : bool * list Call := (true, []).

Definition onDragLeave (isDragging : bool) : bool * list Call := (false, []).

Definition onDrop (files : option (list File)) (isDragging : bool)
  : bool * list Call :=
  (false, handleFileChange files).

(** What the component renders: the preview with its Remove button, or
    the drop zone with its file input. *)
Inductive View : Type :=
| Preview (src : string)
| DropZone (isDragging : bool).

Definition render (imagePreview : option string) (isDragging : bool) : View :=
  match imagePreview with
  | Some src => if Js.truthy_string src then Preview src else DropZone isDragging
  | None => DropZone isDragging
  end.

End ImageUploader.

(* ===================================================================== *)
(** ** A session: user actions and settling calls, one at a time *)
(* ===================================================================== *)

Module Session.

Import Types App.

(** The state of [App] and the asynchronous work in flight: file reads,
    script calls and video calls that have not settled yet. *)
Record World : Type := mkWorld {
  ui : State;
  reads : nat;
  scriptCalls : nat;
  videoCalls : nat
}.

Definition start : World := mkWorld initial 0 0 0.

(** What can happen next: a user action on a rendered, enabled control,
    or the settling of something in flight. *)
Inductive Action : Type :=
| FilesChosen (files : option (list File))
| ReadFinished (result : option string)
| ClickRemoveImage
| TypeDescription (description : string)
| ClickGenerateScript
| ScriptSettled (outcome : Js.Thrown + option AdScript)
| ClickTryAgain
| ClickNewScript
| ClickGenerateVideo
| VideoSettled (outcome : Js.Thrown + string)
| LoadingTick.

(** The block [!adScript && !isLoading] is rendered. *)
Definition formShown (s : State) : bool :=
  negb (isSome (adScript s)) && negb (isLoading s).

(** The block [adScript && !isLoading] is rendered. *)
Definition displayShown (s : State) : bool :=
  isSome (adScript s) && negb (isLoading s).

Definition positive (n : nat) : bool := negb (Nat.eqb n 0).

(** Whether the control is on screen and enabled, or the work in flight. *)
Definition enabled (w : World) (a : Action) : bool :=
  let s := ui w in
  match a with
  | FilesChosen _ => formShown s && negb (Js.truthy (imagePreview s))
  | ReadFinished _ => positive (reads w)
  | ClickRemoveImage => formShown s && Js.truthy (imagePreview s)
  | TypeDescription _ => formShown s && isSome (imageFile s)
  | ClickGenerateScript =>
      formShown s && negb (negb (isSome (imageFile s)) || isLoading s)
  | ScriptSettled _ => positive (scriptCalls w)
  | ClickTryAgain => Js.truthy (error s) && negb (isLoading s)
  | ClickNewScript => displayShown s
  | ClickGenerateVideo => displayShown s && negb (isVideoLoading s)
  | VideoSettled _ => positive (videoCalls w)
  | LoadingTick => negb (Nat.eqb (List.length (intervals s)) 0)
  end.

Definition with_ui (f : State -> State) (w : World) : World :=
  mkWorld (f (ui w)) (reads w) (scriptCalls w) (videoCalls w).

Definition step (a : Action) (w : World) : World :=
  let s := ui w in
  match a with
  | FilesChosen files =>
      match ImageUploader.handleFileChange files with
      | [ImageUploader.OnFileSelect file] =>
          mkWorld (handleFileSelect_begin file s) (S (reads w))
                  (scriptCalls w) (videoCalls w)
      | _ => w
      end
  | ReadFinished result =>
      mkWorld (onloadend result s) (pred (reads w)) (scriptCalls w) (videoCalls w)
  | ClickRemoveImage => with_ui handleHardReset w
  | TypeDescription d => with_ui (setProductDescription d) w
  | ClickGenerateScript =>
      mkWorld (handleGenerateScript_begin s) (reads w)
              (if isSome (imageFile s) then S (scriptCalls w) else scriptCalls w)
              (videoCalls w)
  | ScriptSettled outcome =>
      mkWorld (handleGenerateScript_settle outcome s) (reads w)
              (pred (scriptCalls w)) (videoCalls w)
  | ClickTryAgain => with_ui handleHardReset w
  | ClickNewScript => with_ui handleReset w
  | ClickGenerateVideo =>
      mkWorld (handleGenerateVideo_begin s) (reads w) (scriptCalls w)
              (if isSome (adScript s) && isSome (imageFile s)
               then S (videoCalls w) else videoCalls w)
  | VideoSettled outcome =>
      mkWorld (handleGenerateVideo_settle outcome s) (reads w) (scriptCalls w)
              (pred (videoCalls w))
  | LoadingTick => with_ui loadingTick w
  end.

(** The worlds a session can be in. *)
Inductive Reachable : World -> Prop :=
| reach_start : Reachable start
| reach_step w a : Reachable w -> enabled w a = true -> Reachable (step a w).

(** Running a list of actions, stopping at the first one that is not
    enabled. *)
Fixpoint play (actions : list Action) (w : World) : option World :=
  match actions with
  | [] => Some w
  | a :: rest => if enabled w a then play rest (step a w) else None
  end.

End Session.

(* ===================================================================== *)
(** ** Vocabulary of the properties *)
(* ===================================================================== *)

(** What is observed of a call of [generateAdScript]. *)
Module ScriptSpec.

Import Effect GeminiService Types.

(** The HTTP status the provider signalled, when the failure carries one. *)
Definition signals_http_429 (t : Js.Thrown) : bool :=
  match t with
  | Js.ThrownError e =>
      match Js.status e with
      | Some code => Z.eqb code 429
      | None => false
      end
  | Js.ThrownValue _ => false
  end.

(** What the [catch] block throws for a caught value. *)
Definition rethrown (t : Js.Thrown) : Js.Thrown :=
  if Js.is_error_including "429" t then rate_limit_exceeded
  else script_generation_failed.

Definition is_content_call (e : Event) : bool :=
  match e with CallGenerateContent _ => true | _ => false end.

(** How many times the content endpoint was called. *)
Definition content_calls (es : list Event) : nat :=
  List.length (filter is_content_call es).

(** C3 as stated: the HTTP status decides which error a failing call
    throws. *)
Definition http_status_decides : Prop :=
  forall sdk JSON_parse ai base64Image mimeType productDescription t,
    completion (generateAdScript_try sdk JSON_parse base64Image mimeType
                  productDescription) = Threw t ->
    completion (generateAdScript sdk JSON_parse ai base64Image mimeType
                  productDescription)
    = Threw (if signals_http_429 t then rate_limit_exceeded
             else script_generation_failed).

(** C9 as stated, its last part: the call fails only when the request
    fails or the text does not parse. *)
Definition fails_only_on_transport_or_parse : Prop :=
  forall sdk JSON_parse ai base64Image mimeType productDescription t,
    completion (generateAdScript sdk JSON_parse ai base64Image mimeType
                  productDescription) = Threw t ->
    (exists e, generateContent sdk
                 (scriptRequest base64Image mimeType productDescription) = inl e)
    \/ (exists r txt e,
          generateContent sdk
            (scriptRequest base64Image mimeType productDescription) = inr r
          /\ response_text r = Some txt
          /\ JSON_parse (Js.trim txt) = inl e).

(** C4 as stated: whatever [generateAdScript] returns as an [AdScript] has
    its scenes numbered 1, 2, ... in array order. *)
Definition scenes_numbered_from_1 : Prop :=
  forall sdk JSON_parse ai base64Image mimeType productDescription v a,
    completion (generateAdScript sdk JSON_parse ai base64Image mimeType
                  productDescription) = Returned v ->
    as_AdScript v = Some a ->
    sequential_from_1 a = true.

End ScriptSpec.

(** What is observed of the poll loop and of [generateAdVideo]. *)
Module PollSpec.

Import Effect GeminiService.

(** What an event is, for the rhythm of the loop. *)
Inductive Tick : Type :=
| Wait (ms : Z)
| StatusCheck
| LogLine
| OtherCall.

Definition tick_of (e : Event) : Tick :=
  match e with
  | SetTimeout ms => Wait ms
  | CallGetVideosOperation _ => StatusCheck
  | ConsoleLog _ _ => LogLine
  | ConsoleError _ _ => LogLine
  | CallGenerateContent _ => OtherCall
  | CallGenerateVideos _ => OtherCall
  end.

(** [k] rounds: wait ten seconds, check the status once, log the answer. *)
Fixpoint rounds (k : nat) : list Tick :=
  match k with
  | O => []
  | S k' => Wait 10000 :: StatusCheck :: LogLine :: rounds k'
  end.

Definition status_checks (es : list Event) : nat :=
  List.length (filter (fun e => match tick_of e with
                                | StatusCheck => true
                                | _ => false
                                end) es).

(** Time spent waiting, in milliseconds. *)
Definition elapsed (es : list Event) : Z :=
  fold_right (fun e acc => match tick_of e with
                           | Wait ms => (ms + acc)%Z
                           | _ => acc
                           end) 0%Z es.

(** The handle after [j] more status checks, when they all resolve. *)
Fixpoint observe (sdk : Sdk) (j checks : nat) (operation : Operation)
  : Js.Thrown + Operation :=
  match j with
  | O => inr operation
  | S j' =>
      match getVideosOperation sdk checks operation with
      | inr operation' => observe sdk j' (S checks) operation'
      | inl t => inl t
      end
  end.

(** After [j] checks the handle is there and does not report completion. *)
Definition running_at (sdk : Sdk) (j checks : nat) (operation : Operation) : bool :=
  match observe sdk j checks operation with
  | inr o => negb (Js.truthy_bool (done o))
  | inl _ => false
  end.

(** What the [catch] block of [generateAdVideo] throws for a caught
    value. *)
Definition video_rethrown (t : Js.Thrown) : Js.Thrown :=
  if Js.is_error_including "429" t
     || Js.is_error_including "RESOURCE_EXHAUSTED" t
  then quota_exceeded
  else video_generation_failed.

End PollSpec.

(** What is observed of [App]. *)
Module AppSpec.

Import App.

(** Whether the timer that [loadingIntervalRef] names is still running. *)
Definition loading_interval_running (ref : option nat) (s : State) : bool :=
  match ref with
  | Some id => existsb (Nat.eqb id) (intervals s)
  | None => false
  end.

End AppSpec.

(** Concrete environments, providers and responses. *)
Module Scenarios.

Import GeminiService.

(** C8 as stated, its second half: a key that is present lets the module
    load. *)
Definition present_key_loads : Prop :=
  forall key : string, exists ai, load {| API_KEY := Some key |} = inr ai.

Definition some_ai : GoogleGenAI := {| apiKey := Some "test-key" |}.

Definition never_called_videos : VideoRequest -> Js.Thrown + Operation :=
  fun _ => inl (Js.ThrownValue Js.VNull).

Definition never_called_status : nat -> Operation -> Js.Thrown + Operation :=
  fun _ _ => inl (Js.ThrownValue Js.VNull).

(** A client whose content call settles with [r]. *)
Definition content_sdk (r : Js.Thrown + ContentResponse) : Sdk :=
  {| generateContent := fun _ => r;
     generateVideos := never_called_videos;
     getVideosOperation := never_called_status |}.

Definition answers (text : string) : Sdk :=
  content_sdk (inr {| response_text := Some text |}).

(** An HTTP 400 of the provider: the request is too long.  The digits
    429 occur in the token count. *)
Definition token_limit_error : Js.Thrown :=
  Js.ThrownError
    {| Js.message := "The input token count (1048429) exceeds the maximum number of tokens allowed (1048576).";
       Js.status := Some 400%Z |}.

(** A response of the requested schema whose scenes are numbered 3, 1. *)
Definition unordered_scenes_text : string :=
  JsonReader.text
    "{'title': 'Unleash the Sound', 'tagline': 'Your World, Your Music.',
      'scenes': [
        {'sceneNumber': 3, 'setting': 'A city park.', 'action': 'A runner puts on the headphones.', 'dialogue': 'None', 'sound': 'Upbeat music.'},
        {'sceneNumber': 1, 'setting': 'A train.', 'action': 'The noise fades.', 'dialogue': 'VO: Your world.', 'sound': 'Silence.'}
      ]} ".

(** A response of the requested schema whose scenes are numbered 1, 2. *)
Definition ordered_scenes_text : string :=
  JsonReader.text
    "{'title': 'T', 'tagline': 'G', 'scenes': [
        {'sceneNumber': 1, 'setting': 's', 'action': 'a', 'dialogue': 'None', 'sound': 'm'},
        {'sceneNumber': 2, 'setting': 's', 'action': 'b', 'dialogue': 'None', 'sound': 'm'}]}".

Definition ordered_scenes_value : Js.Value :=
  match JsonReader.parse ordered_scenes_text with
  | inr v => v
  | inl _ => Js.VNull
  end.

Definition started_operation : Operation :=
  {| name := "operations/ad-video"; done := None; response := None |}.

Definition running_operation : Operation :=
  {| name := "operations/ad-video"; done := Some false; response := None |}.

(** A provider that answers the [k]-th status check (and every later one)
    with [finished], and with a running operation before; with [k = 0]
    the operation is already [finished] when it is handed out. *)
Definition finishing_sdk (k : nat) (finished : Operation) : Sdk :=
  {| generateContent := fun _ => inl (Js.ThrownValue Js.VNull);
     generateVideos := fun _ =>
       inr (if Nat.eqb k 0 then finished else started_operation);
     getVideosOperation := fun checks _ =>
       inr (if Nat.leb k (S checks) then finished else running_operation) |}.

(** A provider whose operation never completes. *)
Definition stalled_sdk : Sdk :=
  {| generateContent := fun _ => inl (Js.ThrownValue Js.VNull);
     generateVideos := fun _ => inr started_operation;
     getVideosOperation := fun _ _ => inr running_operation |}.

Definition finished_with (link : option string) : Operation :=
  {| name := "operations/ad-video";
     done := Some true;
     response :=
       Some {| generatedVideos := Some [ {| video := Some {| uri := link |} |} ] |} |}.

(** Completed, with no result at all. *)
Definition finished_empty : Operation :=
  {| name := "operations/ad-video"; done := Some true; response := None |}.

Definition video_link : string := "https://videos.example/v1?alt=media".

End Scenarios.

(* ===================================================================== *)
(** ** Vocabulary of the further properties *)
(* ===================================================================== *)

(** What is observed of a download URL. *)
Module UrlSpec.

Import Effect GeminiService.

(** Whether the character occurs in the string. *)
Fixpoint contains (c : ascii) (s : string) : bool :=
  match s with
  | EmptyString => false
  | String x rest => Ascii.eqb x c || contains c rest
  end.

(** What stands before the first [c]: all of [s] when there is none. *)
Fixpoint before (c : ascii) (s : string) : string :=
  match s with
  | EmptyString => EmptyString
  | String x rest => if Ascii.eqb x c then EmptyString else String x (before c rest)
  end.

(** What stands after the first [c], when there is one. *)
Fixpoint after (c : ascii) (s : string) : option string :=
  match s with
  | EmptyString => None
  | String x rest => if Ascii.eqb x c then Some rest else after c rest
  end.

(** The query of a URL: what stands after the first [?], the fragment
    (from the first [#] on) left aside. *)
Definition query_of (url : string) : option string :=
  after "?" (before "#" url).

(** The pieces of [s] that [c] separates. *)
Fixpoint pieces (c : ascii) (s : string) : list string :=
  match s with
  | EmptyString => [EmptyString]
  | String x rest =>
      if Ascii.eqb x c then EmptyString :: pieces c rest
      else match pieces c rest with
           | p :: ps => String x p :: ps
           | [] => [String x EmptyString]
           end
  end.

(** [name=value] is one of the parameters of the query of [url]. *)
Definition has_parameter (name value url : string) : bool :=
  match query_of url with
  | Some q => existsb (String.eqb (name ++ "=" ++ value)) (pieces "&" q)
  | None => false
  end.

(** C7 as stated: the key is a query parameter of what a call in a loaded
    module returns. *)
Definition key_is_a_query_parameter : Prop :=
  forall env sdk ai fuel prompt base64Image mimeType url,
    load env = inr ai ->
    completion (generateAdVideo env sdk ai fuel prompt base64Image mimeType)
    = Returned url ->
    exists key, API_KEY env = Some key /\ has_parameter "key" key url = true.

(** A download URI without a query. *)
Definition bare_link : string := "https://videos.example/v1".

End UrlSpec.

(** What is observed of [generateAdVideo], beyond its loop. *)
Module VideoSpec.

Import Effect GeminiService.

Definition is_videos_call (e : Event) : bool :=
  match e with CallGenerateVideos _ => true | _ => false end.

(** How many times a video generation was submitted. *)
Definition videos_calls (es : list Event) : nat :=
  List.length (filter is_videos_call es).

(** A provider that refuses the submission with [t]. *)
Definition refusing_sdk (t : Js.Thrown) : Sdk :=
  {| generateContent := fun _ => inl (Js.ThrownValue Js.VNull);
     generateVideos := fun _ => inl t;
     getVideosOperation := fun _ _ => inl (Js.ThrownValue Js.VNull) |}.

(** A provider whose operation is running and whose status checks are
    answered until check number [k] (counting from 0), which is rejected
    with [t]. *)
Definition failing_check_sdk (k : nat) (t : Js.Thrown) : Sdk :=
  {| generateContent := fun _ => inl (Js.ThrownValue Js.VNull);
     generateVideos := fun _ => inr Scenarios.started_operation;
     getVideosOperation := fun checks _ =>
       if Nat.ltb checks k then inr Scenarios.running_operation else inl t |}.

(** The provider's error for an exhausted quota. *)
Definition resource_exhausted : Js.Thrown :=
  Js.ThrownError
    {| Js.message := "You exceeded your current quota. RESOURCE_EXHAUSTED";
       Js.status := None |}.

Definition network_error : Js.Thrown :=
  Js.ThrownError (Js.new_Error "Failed to fetch").

End VideoSpec.

(** What is observed of [AdDisplay], beyond its cards. *)
Module DisplaySpec.

Import Types AdDisplay.

(** The first three lines of the copied text and the separator. *)
Definition copyHeader (script : AdScript) : string :=
  "Title: " ++ title script ++ nl
  ++ "Tagline: " ++ tagline script ++ nl ++ nl
  ++ "--- SCRIPT ---" ++ nl ++ nl.

(** The five lines and the blank line a scene contributes. *)
Definition sceneBlock (scene : Scene) : string :=
  heading_of (sceneCard scene) ++ nl
  ++ "SETTING: " ++ setting scene ++ nl
  ++ "ACTION: " ++ action scene ++ nl
  ++ "DIALOGUE: " ++ dialogue scene ++ nl
  ++ "SOUND: " ++ sound scene ++ nl ++ nl.

(** No character of [s] is white space. *)
Fixpoint no_white_space (s : string) : bool :=
  match s with
  | EmptyString => true
  | String c rest => negb (Js.is_white_space c) && no_white_space rest
  end.

Definition headphones : AdScript :=
  mkAdScript "Unleash  the Sound" "Your World, Your Music."
    [ mkScene 1 "A city park." "A runner puts on the headphones." "None" "Upbeat music.";
      mkScene 2 "A train." "The noise fades." "VO: Your world." "Silence." ].

End DisplaySpec.

(** What is observed of [App] and of a session. *)
Module SessionSpec.

Import Types App Session.

Definition is_image (f : File) : bool := Js.startsWith "image/" (file_type f).

(** The three blocks of which [App] shows one; the error block comes on
    top of them. *)
Definition is_main (p : Panel) : bool :=
  match p with
  | InputForm _ _ _ _ => true
  | LoadingPanel => true
  | AdDisplayPanel _ _ _ _ _ => true
  | ErrorPanel _ _ => false
  end.

Definition image_ok (s : State) : bool :=
  match imageFile s with
  | Some f => is_image f
  | None => true
  end.

(** At most one loading timer runs, it is the one [loadingIntervalRef]
    names, and none runs unless [isVideoLoading]. *)
Definition timers_ok (s : State) : bool :=
  match intervals s with
  | [] => true
  | [id] =>
      isVideoLoading s
      && match loadingIntervalRef s with
         | Some r => Nat.eqb r id
         | None => false
         end
  | _ :: _ :: _ => false
  end.

Definition calls_ok (w : World) : bool :=
  Nat.eqb (scriptCalls w) (if isLoading (ui w) then 1 else 0).

Definition loading_ok (s : State) : bool :=
  if isLoading s
  then isSome (imageFile s) && negb (isSome (error s)) && negb (isSome (adScript s))
  else true.

Definition script_ok (s : State) : bool :=
  if isSome (adScript s)
  then isSome (imageFile s) && negb (isSome (error s))
  else true.

(** What every world of a session satisfies. *)
Definition invariant (w : World) : bool :=
  image_ok (ui w) && timers_ok (ui w) && calls_ok w
  && loading_ok (ui w) && script_ok (ui w).

Definition photo : File := {| file_name := "headphones.png"; file_type := "image/png" |}.

Definition manual : File := {| file_name := "manual.pdf"; file_type := "application/pdf" |}.

(** A state with [photo] selected and previewed, nothing else. *)
Definition ready : State :=
  run [setImageFile (Some photo); setImagePreview (Some "data:image/png;base64,aGVhZA==")]
      initial.

(** Generate a video, ask for a new script while it runs, and let the
    first video arrive after the second script is shown. *)
Definition late_video (first second : AdScript) (url : string) : list Action :=
  [ FilesChosen (Some [photo]);
    ClickGenerateScript;
    ScriptSettled (inr (Some first));
    ClickGenerateVideo;
    ClickNewScript;
    ClickGenerateScript;
    ScriptSettled (inr (Some second));
    VideoSettled (inr url) ].

(** Two video generations started one after the other, none settled. *)
Definition two_videos (first second : AdScript) : list Action :=
  [ FilesChosen (Some [photo]);
    ClickGenerateScript;
    ScriptSettled (inr (Some first));
    ClickGenerateVideo;
    ClickNewScript;
    ClickGenerateScript;
    ScriptSettled (inr (Some second));
    ClickGenerateVideo ].

(** A short session: choose the photo, ask for a script, get one, ask
    for the video. *)
Definition chosen : World := step (FilesChosen (Some [photo; manual])) start.

Definition loading : World := step ClickGenerateScript chosen.

Definition shown : World :=
  step (ScriptSettled (inr (Some DisplaySpec.headphones))) loading.

Definition filming : World := step ClickGenerateVideo shown.

End SessionSpec.

(* ===================================================================== *)
(** * Verified properties *)
(* ===================================================================== *)

(** ** Computations *)

Module EffectFacts.

Import Effect.

Lemma completion_bind_returned {E A B} (m : M E A) (k : A -> M E B) a :
  completion m = Returned a -> completion (bind m k) = completion (k a).
Proof. unfold completion, bind. intros ->. reflexivity. Qed.

Lemma completion_bind_threw {E A B} (m : M E A) (k : A -> M E B) t :
  completion m = Threw t -> completion (bind m k) = Threw t.
Proof. unfold completion, bind. intros ->. reflexivity. Qed.

Lemma completion_try_catch_threw {E A} (body : M E A) handler t :
  completion body = Threw t ->
  completion (try_catch body handler) = completion (handler t).
Proof. unfold completion, try_catch. intros ->. reflexivity. Qed.

Lemma completion_try_catch_returned {E A} (body : M E A) handler a :
  completion body = Returned a ->
  completion (try_catch body handler) = Returned a.
Proof. unfold completion, try_catch. intros H. rewrite H. exact H. Qed.

Lemma completion_try_catch_pending {E A} (body : M E A) handler :
  completion body = Pending ->
  completion (try_catch body handler) = Pending.
Proof. unfold completion, try_catch. intros H. rewrite H. exact H. Qed.

End EffectFacts.

(** ** Module load *)

Module LoadFacts.

Import GeminiService Scenarios.

(** C8, as stated, fails: an [API_KEY] that is present in the environment
    but empty is falsy, so the module throws at load. *)
Lemma empty_key_counterexample :
  load {| API_KEY := Some EmptyString |} = inl API_KEY_not_set
  /\ ~ present_key_loads.
Proof.
  split; [reflexivity|].
  intros H. destruct (H EmptyString) as [ai Hai]. discriminate Hai.
Qed.

(** C8, amended: the module throws at load, binding no client, when
    [API_KEY] is absent or empty; it loads, binding a client that holds the
    key, when [API_KEY] is a non-empty string. *)
Theorem load_iff_key_nonempty :
  (load {| API_KEY := None |} = inl API_KEY_not_set
   /\ forall ai, load {| API_KEY := None |} <> inr ai)
  /\ (load {| API_KEY := Some EmptyString |} = inl API_KEY_not_set
      /\ forall ai, load {| API_KEY := Some EmptyString |} <> inr ai)
  /\ forall c rest,
       load {| API_KEY := Some (String c rest) |}
       = inr {| apiKey := Some (String c rest) |}.
Proof.
  repeat split; try reflexivity; intros ai H; discriminate H.
Qed.

(** A loaded module has a non-empty key in its environment. *)
Lemma load_inr_key env ai :
  load env = inr ai ->
  exists key, API_KEY env = Some key /\ key <> EmptyString.
Proof.
  unfold load. destruct env as [[key|]]; simpl.
  - destruct key; simpl; [discriminate|].
    intros _. eexists; split; [reflexivity|discriminate].
  - discriminate.
Qed.

End LoadFacts.

(** ** [generateAdScript] *)

Module ScriptFacts.

Import Effect GeminiService ScriptSpec.

Ltac split_ifs :=
  repeat match goal with
         | |- context [if ?b then _ else _] => destruct b; simpl
         end.

Ltac script_cases sdk parse :=
  unfold generateAdScript, generateAdScript_try, generateAdScript_catch,
    try_catch, bind, settle, emit, ret, throw, completion, events;
  simpl;
  match goal with
  | |- context [generateContent sdk ?req] =>
      destruct (generateContent sdk req) as [rejected|[[txt|]]]; simpl;
      [ | destruct (parse (Js.trim txt)) as [syntax|v]; simpl | ]
  end.

Section AnyRun.

Variable sdk : Sdk.
Variable JSON_parse : string -> Js.Error + Js.Value.
Variable ai : GoogleGenAI.
Variables base64Image mimeType productDescription : string.

Local Notation call :=
  (generateAdScript sdk JSON_parse ai base64Image mimeType productDescription).
Local Notation body :=
  (generateAdScript_try sdk JSON_parse base64Image mimeType productDescription).
Local Notation req := (scriptRequest base64Image mimeType productDescription).

(** The call settles: it is never left pending. *)
Lemma script_settles : completion call <> Pending.
Proof.
  script_cases sdk JSON_parse; split_ifs; discriminate.
Qed.

(** Exactly one request is sent, whatever happens next. *)
Lemma script_one_request : content_calls (events call) = 1.
Proof.
  unfold content_calls. script_cases sdk JSON_parse;
    split_ifs; reflexivity.
Qed.

(** The three ways the [try] block can throw. *)
Lemma script_try_threw t :
  completion body = Threw t ->
  generateContent sdk req = inl t
  \/ (exists r, generateContent sdk req = inr r
                /\ response_text r = None /\ t = Js.trim_of_undefined)
  \/ (exists r txt e, generateContent sdk req = inr r
                      /\ response_text r = Some txt
                      /\ JSON_parse (Js.trim txt) = inl e
                      /\ t = Js.ThrownError e).
Proof.
  unfold generateAdScript_try, bind, settle, emit, ret, throw, completion.
  simpl.
  destruct (generateContent sdk _) as [rejected|[[txt|]]] eqn:Hcall; simpl.
  - intros [= <-]. now left.
  - destruct (JSON_parse (Js.trim txt)) as [syntax|v] eqn:Hparse; simpl.
    + intros [= <-]. right; right. now exists {| response_text := Some txt |}, txt, syntax.
    + discriminate.
  - intros [= <-]. right; left. now exists {| response_text := None |}.
Qed.

(** The [try] block returns exactly the parsed text of the response. *)
Lemma script_try_returned v :
  completion body = Returned v <->
  exists r txt, generateContent sdk req = inr r
                /\ response_text r = Some txt
                /\ JSON_parse (Js.trim txt) = inr v.
Proof.
  unfold generateAdScript_try, bind, settle, emit, ret, throw, completion.
  simpl.
  destruct (generateContent sdk _) as [rejected|[[txt|]]] eqn:Hcall; simpl.
  - split; [discriminate|]. intros (r & t & H & _). discriminate H.
  - destruct (JSON_parse (Js.trim txt)) as [syntax|w] eqn:Hparse; simpl.
    + split; [discriminate|].
      intros (r & t & [= <-] & [= <-] & H). congruence.
    + split.
      * intros [= <-]. now exists {| response_text := Some txt |}, txt.
      * intros (r & t & [= <-] & [= <-] & H). congruence.
  - split; [discriminate|].
    intros (r & t & [= <-] & H & _). discriminate H.
Qed.

(** What the [try] block throws is caught and replaced. *)
Lemma script_threw t :
  completion body = Threw t -> completion call = Threw (rethrown t).
Proof.
  intros H. unfold generateAdScript.
  rewrite (EffectFacts.completion_try_catch_threw _ _ _ H).
  unfold generateAdScript_catch, rethrown, completion, bind, emit, throw.
  simpl. destruct (Js.is_error_including _ _); reflexivity.
Qed.

(** What the [try] block returns, the call returns. *)
Lemma script_returned v :
  completion call = Returned v <-> completion body = Returned v.
Proof.
  split.
  - intros H. destruct (completion body) as [a|t|] eqn:Hb.
    + unfold generateAdScript in H.
      rewrite (EffectFacts.completion_try_catch_returned _ _ _ Hb) in H.
      exact H.
    + rewrite (script_threw _ Hb) in H. discriminate H.
    + unfold generateAdScript in H.
      rewrite (EffectFacts.completion_try_catch_pending _ _ Hb) in H.
      discriminate H.
  - apply EffectFacts.completion_try_catch_returned.
Qed.

End AnyRun.

End ScriptFacts.

(** ** The response schema and the [AdScript] type *)

Module SchemaFacts.

Import GeminiService Types.

Lemma conforms_STRING d v :
  conforms (STRING d) v = true -> exists s, v = Js.VStr s.
Proof. destruct v; simpl; try discriminate. eauto. Qed.

Lemma conforms_INTEGER d v :
  conforms (INTEGER d) v = true -> exists z, v = Js.VNum z.
Proof. destruct v; simpl; try discriminate. eauto. Qed.

Lemma conforms_ARRAY d items v :
  conforms (ARRAY d items) v = true ->
  exists vs, v = Js.VArr vs /\ forallb (conforms items) vs = true.
Proof. destruct v; simpl; try discriminate. eauto. Qed.

Lemma conforms_scene v :
  conforms sceneSchema v = true -> exists s, as_Scene v = Some s.
Proof.
  destruct v as [| | | | |f]; try discriminate.
  unfold sceneSchema. simpl. intros H.
  repeat (apply andb_prop in H; destruct H as [? H]).
  repeat match goal with
         | X : _ && _ = true |- _ => apply andb_prop in X; destruct X as [? X]
         end.
  unfold as_Scene, get_number, get_string.
  destruct (Js.get "sceneNumber" f) as [v1|] eqn:E1; [|discriminate].
  destruct (Js.get "setting" f) as [v2|] eqn:E2; [|discriminate].
  destruct (Js.get "action" f) as [v3|] eqn:E3; [|discriminate].
  destruct (Js.get "dialogue" f) as [v4|] eqn:E4; [|discriminate].
  destruct (Js.get "sound" f) as [v5|] eqn:E5; [|discriminate].
  repeat match goal with
         | X : match ?w with Js.VNull => _ | _ => _ end = true |- _ =>
             destruct w; try discriminate X; clear X
         end.
  simpl. eauto.
Qed.

Lemma conforms_scenes items :
  forallb (conforms sceneSchema) items = true ->
  exists ss, all_Scenes items = Some ss.
Proof.
  induction items as [|v rest IH]; simpl; [eauto|].
  intros H. apply andb_prop in H. destruct H as [Hv Hrest].
  destruct (conforms_scene _ Hv) as [s ->].
  destruct (IH Hrest) as [ss ->]. eauto.
Qed.

(** A value of the requested schema has the shape of [AdScript]. *)
Lemma conforms_adScript v :
  conforms adScriptSchema v = true -> exists a, as_AdScript v = Some a.
Proof.
  destruct v as [| | | | |f]; try discriminate.
  unfold adScriptSchema. simpl. intros H.
  repeat (apply andb_prop in H; destruct H as [? H]).
  repeat match goal with
         | X : _ && _ = true |- _ => apply andb_prop in X; destruct X as [? X]
         end.
  unfold as_AdScript, get_string.
  destruct (Js.get "title" f) as [v1|] eqn:E1; [|discriminate].
  destruct (Js.get "tagline" f) as [v2|] eqn:E2; [|discriminate].
  destruct (Js.get "scenes" f) as [v3|] eqn:E3; [|discriminate].
  repeat match goal with
         | X : match ?w with Js.VNull => _ | _ => _ end = true |- _ =>
             destruct w; try discriminate X
         end.
  match goal with
  | X : forallb _ _ = true |- _ => destruct (conforms_scenes _ X) as [ss ->]
  end.
  simpl. eauto.
Qed.

Lemma all_Scenes_numbers items : forall ss,
  all_Scenes items = Some ss ->
  map (fun item => match item with
                   | Js.VObj g => get_number "sceneNumber" g
                   | _ => None
                   end) items
  = map (fun s => Some (sceneNumber s)) ss.
Proof.
  induction items as [|v rest IH]; simpl; intros ss H.
  - injection H as <-. reflexivity.
  - destruct (as_Scene v) as [s|] eqn:Hs; [|discriminate].
    destruct (all_Scenes rest) as [ss'|]; [|discriminate].
    injection H as <-. simpl. rewrite (IH ss' eq_refl). f_equal.
    unfold as_Scene in Hs. destruct v as [| | | | |g]; try discriminate.
    destruct (get_number "sceneNumber" g); [|discriminate].
    destruct (get_string "setting" g); [|discriminate].
    destruct (get_string "action" g); [|discriminate].
    destruct (get_string "dialogue" g); [|discriminate].
    destruct (get_string "sound" g); [|discriminate].
    injection Hs as <-. reflexivity.
Qed.

(** The typed view keeps the scene numbers of the value, in order. *)
Lemma as_AdScript_numbers v a :
  as_AdScript v = Some a ->
  map (fun s => Some (sceneNumber s)) (scenes a) = sceneNumbers_in v.
Proof.
  unfold as_AdScript, sceneNumbers_in.
  destruct v as [| | | | |f]; try discriminate.
  destruct (get_string "title" f); [|discriminate].
  destruct (get_string "tagline" f); [|discriminate].
  destruct (Js.get "scenes" f) as [[| | | |items|]|]; try discriminate.
  destruct (all_Scenes items) as [ss|] eqn:Hss; [|discriminate].
  simpl. intros [= <-]. simpl. symmetry. now apply all_Scenes_numbers.
Qed.

End SchemaFacts.

(** ** [generateAdScript]: failures, validation, scene numbers *)

Module ScriptProperties.

Import Effect GeminiService Types ScriptSpec Scenarios ScriptFacts.

(** *** C3 *)

(** C3, as stated, fails: a failure that is not an HTTP 429 but whose
    message contains the digits 429 is reported as a rate limit. *)
Lemma token_count_counterexample :
  signals_http_429 token_limit_error = false
  /\ completion (generateAdScript (content_sdk (inl token_limit_error))
                   JsonReader.parse some_ai "aGVhZHBob25lcw==" "image/png"
                   "wireless headphones")
     = Threw rate_limit_exceeded
  /\ ~ http_status_decides.
Proof.
  split; [reflexivity|]. split; [reflexivity|].
  intros H.
  specialize (H (content_sdk (inl token_limit_error)) JsonReader.parse some_ai
                "aGVhZHBob25lcw==" "image/png" "wireless headphones"
                token_limit_error eq_refl).
  discriminate H.
Qed.

(** C3, amended: when a call to [generateAdScript] fails, it throws the
    rate-limit error if the caught value is an [Error] whose message
    contains "429" (which is how an HTTP 429 of the provider is
    recognised), and the generic generation error for every other failure,
    a response text that is not valid JSON included unless the engine's
    message contains "429"; the content endpoint is called exactly once, so
    nothing is retried. *)
Theorem script_failure_classified :
  forall sdk JSON_parse ai base64Image mimeType productDescription t,
    completion (generateAdScript_try sdk JSON_parse base64Image mimeType
                  productDescription) = Threw t ->
    completion (generateAdScript sdk JSON_parse ai base64Image mimeType
                  productDescription)
    = Threw (if Js.is_error_including "429" t then rate_limit_exceeded
             else script_generation_failed)
    /\ content_calls (events (generateAdScript sdk JSON_parse ai base64Image
                                mimeType productDescription)) = 1.
Proof.
  intros sdk JSON_parse ai base64Image mimeType productDescription t H.
  split.
  - exact (script_threw sdk JSON_parse ai _ _ _ t H).
  - apply script_one_request.
Qed.

(** A response that is not JSON: the generic error, after one request. *)
Lemma script_failure_classified_witness :
  completion (generateAdScript (answers "Sorry, I cannot help with that.")
                JsonReader.parse some_ai "aGVhZHBob25lcw==" "image/png"
                "wireless headphones")
  = Threw script_generation_failed
  /\ content_calls (events (generateAdScript
                              (answers "Sorry, I cannot help with that.")
                              JsonReader.parse some_ai "aGVhZHBob25lcw=="
                              "image/png" "wireless headphones")) = 1.
Proof.
  apply (script_failure_classified
           (answers "Sorry, I cannot help with that.") JsonReader.parse some_ai
           "aGVhZHBob25lcw==" "image/png" "wireless headphones"
           (Js.ThrownError JsonReader.syntax_error)).
  reflexivity.
Defined.

(** *** C9 *)

(** C9, as stated, fails: a response that carries no text makes
    [response.text.trim()] throw, and the call fails although the request
    succeeded and nothing was parsed. *)
Lemma no_text_counterexample :
  completion (generateAdScript (content_sdk (inr {| response_text := None |}))
                JsonReader.parse some_ai "aGVhZHBob25lcw==" "image/png"
                "wireless headphones")
  = Threw script_generation_failed
  /\ ~ fails_only_on_transport_or_parse.
Proof.
  split; [reflexivity|].
  intros H.
  destruct (H (content_sdk (inr {| response_text := None |})) JsonReader.parse
              some_ai "aGVhZHBob25lcw==" "image/png" "wireless headphones"
              script_generation_failed eq_refl)
    as [[e He]|(r & txt & e & Hr & Ht & _)].
  - discriminate He.
  - injection Hr as <-. discriminate Ht.
Qed.

(** C9, amended: [generateAdScript] does not validate the response: when
    the trimmed text of the response parses, the parsed value is returned
    as it is, whatever its shape; and the call fails only when the request
    fails, the response carries no text, or the text does not parse. *)
Theorem script_not_validated :
  forall sdk JSON_parse ai base64Image mimeType productDescription,
    let req := scriptRequest base64Image mimeType productDescription in
    let call := generateAdScript sdk JSON_parse ai base64Image mimeType
                  productDescription in
    (forall r txt v,
        generateContent sdk req = inr r ->
        response_text r = Some txt ->
        JSON_parse (Js.trim txt) = inr v ->
        completion call = Returned v)
    /\ (forall t,
          completion call = Threw t ->
          (exists e, generateContent sdk req = inl e)
          \/ (exists r, generateContent sdk req = inr r
                        /\ response_text r = None)
          \/ (exists r txt e, generateContent sdk req = inr r
                              /\ response_text r = Some txt
                              /\ JSON_parse (Js.trim txt) = inl e)).
Proof.
  intros sdk JSON_parse ai base64Image mimeType productDescription req call.
  split.
  - intros r txt v Hr Ht Hv.
    apply script_returned, script_try_returned. now exists r, txt.
  - intros t Ht.
    destruct (completion (generateAdScript_try sdk JSON_parse base64Image
                            mimeType productDescription)) as [a|t'|] eqn:Hb.
    + apply (script_returned sdk JSON_parse ai) in Hb.
      unfold call in Ht. rewrite Hb in Ht. discriminate Ht.
    + destruct (script_try_threw _ _ _ _ _ _ Hb)
        as [H|[(r & H & Hn & _)|(r & txt & e & H & Hs & Hp & _)]].
      * left. now exists t'.
      * right; left. now exists r.
      * right; right. now exists r, txt, e.
    + exfalso. revert Hb. unfold generateAdScript_try.
      unfold bind, settle, emit, ret, throw, completion. simpl.
      destruct (generateContent sdk _) as [rejected|[[txt|]]]; simpl;
        try discriminate.
      destruct (JSON_parse (Js.trim txt)); discriminate.
Qed.

(** The text [{}] parses; the empty object is returned although it has
    none of the required properties. *)
Lemma script_not_validated_witness :
  as_AdScript (Js.VObj []) = None
  /\ conforms adScriptSchema (Js.VObj []) = false
  /\ completion (generateAdScript (answers " {} ") JsonReader.parse some_ai
                   "aGVhZHBob25lcw==" "image/png" "wireless headphones")
     = Returned (Js.VObj []).
Proof.
  split; [reflexivity|]. split; [reflexivity|].
  apply (proj1 (script_not_validated (answers " {} ") JsonReader.parse some_ai
                  "aGVhZHBob25lcw==" "image/png" "wireless headphones")
           {| response_text := Some " {} " |} " {} " (Js.VObj []));
    reflexivity.
Defined.

(** *** C4 *)

(** C4, as stated, fails: a response of the requested schema whose scenes
    are numbered 3, 1 is returned with these numbers. *)
Lemma unordered_scenes_counterexample :
  exists v a,
    completion (generateAdScript (answers unordered_scenes_text)
                  JsonReader.parse some_ai "aGVhZHBob25lcw==" "image/png"
                  "wireless headphones") = Returned v
    /\ conforms adScriptSchema v = true
    /\ as_AdScript v = Some a
    /\ map sceneNumber (scenes a) = [3%Z; 1%Z]
    /\ sequential_from_1 a = false
    /\ ~ scenes_numbered_from_1.
Proof.
  destruct (as_AdScript
              match JsonReader.parse (Js.trim unordered_scenes_text) with
              | inr v => v
              | inl _ => Js.VNull
              end) as [a|] eqn:Ha; [|vm_compute in Ha; discriminate Ha].
  eexists. exists a.
  split; [vm_compute; reflexivity|].
  split; [vm_compute; reflexivity|].
  vm_compute in Ha. injection Ha as <-.
  split; [reflexivity|]. split; [reflexivity|]. split; [reflexivity|].
  intros H.
  specialize (H (answers unordered_scenes_text) JsonReader.parse some_ai
                "aGVhZHBob25lcw==" "image/png" "wireless headphones").
  specialize (H _ _ ltac:(vm_compute; reflexivity) ltac:(vm_compute; reflexivity)).
  discriminate H.
Qed.

(** C4, amended: every value returned by [generateAdScript] is the parsed
    text of the provider's response, unchanged; the request asks for the
    schema in which every scene has a required integer [sceneNumber]; and
    when the returned value follows that schema it is an [AdScript] whose
    scenes carry, in array order, the integer scene numbers the provider
    sent, whatever they are. *)
Theorem script_scene_numbers_as_sent :
  forall sdk JSON_parse ai base64Image mimeType productDescription v,
    let req := scriptRequest base64Image mimeType productDescription in
    completion (generateAdScript sdk JSON_parse ai base64Image mimeType
                  productDescription) = Returned v ->
    (exists r txt, generateContent sdk req = inr r
                   /\ response_text r = Some txt
                   /\ JSON_parse (Js.trim txt) = inr v)
    /\ responseSchema (config req) = adScriptSchema
    /\ (conforms adScriptSchema v = true ->
        exists a, as_AdScript v = Some a
                  /\ map (fun s => Some (sceneNumber s)) (scenes a)
                     = sceneNumbers_in v).
Proof.
  intros sdk JSON_parse ai base64Image mimeType productDescription v req H.
  split; [|split].
  - now apply script_try_returned, (script_returned sdk JSON_parse ai).
  - reflexivity.
  - intros Hc. destruct (SchemaFacts.conforms_adScript _ Hc) as [a Ha].
    exists a. split; [exact Ha|]. now apply SchemaFacts.as_AdScript_numbers.
Qed.

(** A response numbered 1, 2 comes back numbered 1, 2. *)
Lemma script_scene_numbers_as_sent_witness :
  sceneNumbers_in ordered_scenes_value = [Some 1%Z; Some 2%Z]
  /\ exists a, as_AdScript ordered_scenes_value = Some a
               /\ map (fun s => Some (sceneNumber s)) (scenes a)
                  = sceneNumbers_in ordered_scenes_value.
Proof.
  split; [vm_compute; reflexivity|].
  apply (script_scene_numbers_as_sent (answers ordered_scenes_text)
           JsonReader.parse some_ai "aGVhZHBob25lcw==" "image/png"
           "wireless headphones" ordered_scenes_value);
    vm_compute; reflexivity.
Defined.

End ScriptProperties.

(** ** [generateAdVideo]: the poll loop *)

Module PollFacts.

Import Effect GeminiService PollSpec.

Lemma status_checks_rounds es k :
  map tick_of es = rounds k -> status_checks es = k.
Proof.
  revert es. induction k as [|k IH]; intros es H.
  - destruct es; [reflexivity|discriminate H].
  - destruct es as [|e1 [|e2 [|e3 es]]]; try discriminate H.
    simpl in H. injection H as H1 H2 H3 H.
    unfold status_checks. simpl. rewrite H1, H2, H3. simpl.
    f_equal. apply (IH es H).
Qed.

Lemma elapsed_rounds es k :
  map tick_of es = rounds k -> elapsed es = (10000 * Z.of_nat k)%Z.
Proof.
  revert es. induction k as [|k IH]; intros es H.
  - destruct es; [reflexivity|discriminate H].
  - destruct es as [|e1 [|e2 [|e3 es]]]; try discriminate H.
    simpl in H. injection H as H1 H2 H3 H.
    unfold elapsed. simpl. rewrite H1, H2, H3.
    fold (elapsed es). rewrite (IH es H). lia.
Qed.

Section Loop.

Variable sdk : Sdk.

Lemma poll_done fuel checks operation :
  Js.truthy_bool (done operation) = true ->
  poll sdk fuel checks operation = ret operation.
Proof. intros H. destruct fuel; simpl; rewrite H; reflexivity. Qed.

(** One round of the loop, when the status check resolves. *)
Lemma poll_round fuel checks operation operation' :
  Js.truthy_bool (done operation) = false ->
  getVideosOperation sdk checks operation = inr operation' ->
  poll sdk (S fuel) checks operation
  = (SetTimeout 10000
       :: CallGetVideosOperation operation
       :: ConsoleLog "Polling... done:" (LogDone (done operation'))
       :: events (poll sdk fuel (S checks) operation'),
     completion (poll sdk fuel (S checks) operation')).
Proof.
  intros Hd Hc. simpl. rewrite Hd. simpl.
  unfold bind, settle, emit, ret. simpl. rewrite Hc. simpl.
  destruct (poll sdk fuel (S checks) operation') as [es [o|t|]]; reflexivity.
Qed.

Lemma running_at_0 checks operation :
  running_at sdk 0 checks operation = true ->
  Js.truthy_bool (done operation) = false.
Proof. unfold running_at. simpl. apply negb_true_iff. Qed.

Lemma running_at_S j checks operation operation' :
  getVideosOperation sdk checks operation = inr operation' ->
  running_at sdk (S j) checks operation = running_at sdk j (S checks) operation'.
Proof. intros H. unfold running_at. simpl. rewrite H. reflexivity. Qed.

(** The loop leaves on the first handle that reports completion, after
    one round per status check. *)
Lemma poll_exits k : forall checks operation last fuel,
  (forall j, j < k -> running_at sdk j checks operation = true) ->
  observe sdk k checks operation = inr last ->
  Js.truthy_bool (done last) = true ->
  k <= fuel ->
  completion (poll sdk fuel checks operation) = Returned last
  /\ map tick_of (events (poll sdk fuel checks operation)) = rounds k.
Proof.
  induction k as [|k IH]; intros checks operation last fuel Hrun Hobs Hdone Hfuel.
  - simpl in Hobs. injection Hobs as ->.
    rewrite (poll_done _ _ _ Hdone). split; reflexivity.
  - destruct fuel as [|fuel]; [lia|].
    pose proof (running_at_0 _ _ (Hrun 0 ltac:(lia))) as Hd.
    simpl in Hobs.
    destruct (getVideosOperation sdk checks operation) as [t|operation'] eqn:Hc;
      [discriminate Hobs|].
    destruct (IH (S checks) operation' last fuel) as [Hret Hticks];
      [ | exact Hobs | exact Hdone | lia | ].
    + intros j Hj. rewrite <- (running_at_S j _ _ _ Hc). apply Hrun. lia.
    + rewrite (poll_round _ _ _ _ Hd Hc). unfold completion, events in *.
      simpl. split; [exact Hret|]. now rewrite Hticks.
Qed.

(** While no handle reports completion, the loop keeps going: however
    many rounds are observed, it has not returned. *)
Lemma poll_keeps_waiting fuel : forall checks operation,
  (forall j, running_at sdk j checks operation = true) ->
  completion (poll sdk fuel checks operation) = Pending
  /\ map tick_of (events (poll sdk fuel checks operation)) = rounds fuel.
Proof.
  induction fuel as [|fuel IH]; intros checks operation Hrun.
  - pose proof (running_at_0 _ _ (Hrun 0)) as Hd.
    simpl. rewrite Hd. split; reflexivity.
  - pose proof (running_at_0 _ _ (Hrun 0)) as Hd.
    destruct (getVideosOperation sdk checks operation) as [t|operation'] eqn:Hc.
    + specialize (Hrun 1). unfold running_at in Hrun. simpl in Hrun.
      rewrite Hc in Hrun. discriminate Hrun.
    + destruct (IH (S checks) operation') as [Hp Hticks].
      * intros j. rewrite <- (running_at_S j _ _ _ Hc). apply Hrun.
      * rewrite (poll_round _ _ _ _ Hd Hc). unfold completion, events in *.
        simpl. split; [exact Hp|]. now rewrite Hticks.
Qed.

(** Whatever the loop returns reports completion. *)
Lemma poll_returns_done fuel : forall checks operation finished,
  completion (poll sdk fuel checks operation) = Returned finished ->
  Js.truthy_bool (done finished) = true.
Proof.
  induction fuel as [|fuel IH]; intros checks operation finished H;
    destruct (Js.truthy_bool (done operation)) eqn:Hd.
  - rewrite (poll_done _ _ _ Hd) in H. injection H as <-. exact Hd.
  - simpl in H. rewrite Hd in H. discriminate H.
  - rewrite (poll_done _ _ _ Hd) in H. injection H as <-. exact Hd.
  - destruct (getVideosOperation sdk checks operation) as [t|operation'] eqn:Hc.
    + simpl in H. rewrite Hd in H. unfold bind, settle, emit, throw in H.
      simpl in H. rewrite Hc in H. discriminate H.
    + rewrite (poll_round _ _ _ _ Hd Hc) in H. apply (IH _ _ _ H).
Qed.

(** Conversely, a loop that returns has seen a first completed handle,
    and returns it. *)
Lemma poll_returns_first fuel : forall checks operation last,
  completion (poll sdk fuel checks operation) = Returned last ->
  exists k,
    k <= fuel
    /\ (forall j, j < k -> running_at sdk j checks operation = true)
    /\ observe sdk k checks operation = inr last
    /\ Js.truthy_bool (done last) = true.
Proof.
  induction fuel as [|fuel IH]; intros checks operation last H;
    destruct (Js.truthy_bool (done operation)) eqn:Hd.
  - rewrite (poll_done _ _ _ Hd) in H. injection H as <-.
    exists 0. repeat split; [lia|intros j Hj; lia|exact Hd].
  - simpl in H. rewrite Hd in H. discriminate H.
  - rewrite (poll_done _ _ _ Hd) in H. injection H as <-.
    exists 0. repeat split; [lia|intros j Hj; lia|exact Hd].
  - destruct (getVideosOperation sdk checks operation) as [t|operation'] eqn:Hc.
    + simpl in H. rewrite Hd in H. unfold bind, settle, emit, throw in H.
      simpl in H. rewrite Hc in H. discriminate H.
    + rewrite (poll_round _ _ _ _ Hd Hc) in H.
      destruct (IH _ _ _ H) as (k & Hk & Hrun & Hobs & Hdone).
      exists (S k). repeat split; [lia| |simpl; now rewrite Hc|exact Hdone].
      intros [|j] Hj.
      * unfold running_at. simpl. now rewrite Hd.
      * rewrite (running_at_S j _ _ _ Hc). apply Hrun. lia.
Qed.

End Loop.

End PollFacts.

(** ** [generateAdVideo]: how a call completes *)

Module VideoFacts.

Import Effect GeminiService PollSpec Scenarios.

Section AnyCall.

Variable env : ProcessEnv.
Variable sdk : Sdk.
Variable ai : GoogleGenAI.
Variable fuel : nat.
Variables prompt base64Image mimeType : string.

Local Notation req := (videoRequest prompt base64Image mimeType).

(** The [try] block, case by case. *)
Lemma video_try_completion :
  completion (generateAdVideo_try env sdk fuel prompt base64Image mimeType)
  = match generateVideos sdk req with
    | inl t => Threw t
    | inr started =>
        match completion (poll sdk fuel 0 started) with
        | Returned finished =>
            if Js.truthy (downloadLink_of finished)
            then Returned (Js.interpolate (downloadLink_of finished)
                           ++ "&key=" ++ Js.interpolate (API_KEY env))
            else Threw no_download_link
        | Threw t => Threw t
        | Pending => Pending
        end
    end.
Proof.
  unfold generateAdVideo_try, completion, bind, settle, emit, ret, throw.
  simpl.
  destruct (generateVideos sdk _) as [t|started]; simpl; [reflexivity|].
  destruct (poll sdk fuel 0 started) as [es [finished|t|]]; simpl;
    try reflexivity.
  destruct (Js.truthy (downloadLink_of finished)); reflexivity.
Qed.

(** The whole call, from its [try] block. *)
Lemma video_completion :
  completion (generateAdVideo env sdk ai fuel prompt base64Image mimeType)
  = match completion (generateAdVideo_try env sdk fuel prompt base64Image
                        mimeType) with
    | Returned url => Returned url
    | Threw t => Threw (video_rethrown t)
    | Pending => Pending
    end.
Proof.
  unfold generateAdVideo, try_catch, completion.
  destruct (snd (generateAdVideo_try _ _ _ _ _ _)) as [url|t|] eqn:H;
    try (rewrite H; reflexivity).
  unfold generateAdVideo_catch, video_rethrown, bind, emit, throw. simpl.
  destruct (_ || _); reflexivity.
Qed.

(** A completed operation without a download link: the error raised for
    it is caught by the function's own [catch] and leaves as the generic
    failure. *)
Lemma video_missing_link started finished :
  generateVideos sdk req = inr started ->
  completion (poll sdk fuel 0 started) = Returned finished ->
  Js.truthy (downloadLink_of finished) = false ->
  completion (generateAdVideo env sdk ai fuel prompt base64Image mimeType)
  = Threw video_generation_failed.
Proof.
  intros Hs Hp Hl. rewrite video_completion, video_try_completion.
  rewrite Hs, Hp, Hl. reflexivity.
Qed.

(** While the loop is pending, so is the call. *)
Lemma video_pending started :
  generateVideos sdk req = inr started ->
  completion (poll sdk fuel 0 started) = Pending ->
  completion (generateAdVideo env sdk ai fuel prompt base64Image mimeType)
  = Pending.
Proof.
  intros Hs Hp. rewrite video_completion, video_try_completion.
  rewrite Hs, Hp. reflexivity.
Qed.

End AnyCall.

Lemma stalled_observe j : forall checks operation,
  Js.truthy_bool (done operation) = false ->
  running_at stalled_sdk j checks operation = true.
Proof.
  unfold running_at.
  induction j as [|j IH]; intros checks operation H; simpl.
  - now rewrite H.
  - apply IH. reflexivity.
Qed.

End VideoFacts.

(** ** The download link and its query *)

Module LinkFacts.

Import GeminiService UrlSpec.

(** Where the download link comes from. *)
Lemma downloadLink_of_inv operation link :
  downloadLink_of operation = Some link ->
  exists r gv others v,
    response operation = Some r
    /\ generatedVideos r = Some (gv :: others)
    /\ video gv = Some v
    /\ uri v = Some link.
Proof.
  unfold downloadLink_of.
  destruct (response operation) as [r|] eqn:Hr; [|discriminate].
  destruct (generatedVideos r) as [[|gv others]|] eqn:Hg; try discriminate.
  simpl. destruct (video gv) as [v|] eqn:Hv; [|discriminate].
  intros H. exists r, gv, others, v. repeat split; assumption.
Qed.

Lemma contains_app c a b :
  contains c (a ++ b) = contains c a || contains c b.
Proof.
  induction a as [|x a IH]; simpl; [reflexivity|].
  now rewrite IH, orb_assoc.
Qed.

Lemma before_without c s : contains c s = false -> before c s = s.
Proof.
  induction s as [|x s IH]; simpl; [reflexivity|].
  intros H. apply orb_false_iff in H. destruct H as [Hx Hs].
  rewrite Hx. now rewrite IH.
Qed.

Lemma after_without c s : contains c s = false -> after c s = None.
Proof.
  induction s as [|x s IH]; simpl; [reflexivity|].
  intros H. apply orb_false_iff in H. destruct H as [Hx Hs].
  rewrite Hx. now apply IH.
Qed.

Lemma after_app c a b :
  contains c a = true ->
  exists q, after c a = Some q /\ after c (a ++ b) = Some (q ++ b).
Proof.
  induction a as [|x a IH]; simpl; [discriminate|].
  destruct (Ascii.eqb x c); simpl.
  - intros _. now exists a.
  - exact IH.
Qed.

Lemma pieces_not_empty c s : pieces c s <> [].
Proof.
  destruct s as [|x s]; simpl; [discriminate|].
  destruct (Ascii.eqb x c); [discriminate|].
  destruct (pieces c s); discriminate.
Qed.

Lemma pieces_without c s : contains c s = false -> pieces c s = [s].
Proof.
  induction s as [|x s IH]; simpl; [reflexivity|].
  intros H. apply orb_false_iff in H. destruct H as [Hx Hs].
  rewrite Hx. now rewrite (IH Hs).
Qed.

(** A separator splits: the pieces before it, then the pieces after. *)
Lemma pieces_app c a b :
  pieces c (a ++ String c b) = (pieces c a ++ pieces c b)%list.
Proof.
  induction a as [|x a IH]; simpl.
  - now rewrite Ascii.eqb_refl.
  - destruct (Ascii.eqb x c); [now rewrite IH|].
    rewrite IH. pose proof (pieces_not_empty c a) as Hne.
    destruct (pieces c a) as [|p ps]; [contradiction|reflexivity].
Qed.

(** After a link with a query, [&key=] makes the key a parameter. *)
Lemma key_is_parameter link key :
  contains "?" link = true ->
  contains "#" link = false ->
  contains "#" key = false ->
  contains "&" key = false ->
  has_parameter "key" key (link ++ "&key=" ++ key) = true.
Proof.
  intros Hq Hh Hhk Hak. unfold has_parameter, query_of.
  rewrite before_without.
  - destruct (after_app "?" link ("&key=" ++ key) Hq) as (q & _ & ->).
    change (q ++ "&key=" ++ key) with (q ++ String "&" ("key=" ++ key)).
    rewrite pieces_app, existsb_app.
    rewrite (pieces_without "&" ("key=" ++ key)).
    + simpl. rewrite String.eqb_refl. now rewrite orb_true_r.
    + simpl. exact Hak.
  - rewrite contains_app, Hh. simpl. exact Hhk.
Qed.

(** After a link without a query there is still none. *)
Lemma no_query link key :
  contains "?" link = false ->
  contains "?" key = false ->
  query_of (link ++ "&key=" ++ key) = None.
Proof.
  intros Hq Hqk. unfold query_of. apply after_without.
  assert (H : contains "?" (link ++ "&key=" ++ key) = false).
  { rewrite contains_app, Hq. simpl. exact Hqk. }
  revert H. generalize (link ++ "&key=" ++ key). intros s.
  induction s as [|x s IH]; simpl; [reflexivity|].
  intros H. apply orb_false_iff in H. destruct H as [Hx Hs].
  destruct (Ascii.eqb x "#"); [reflexivity|].
  simpl. rewrite Hx. now apply IH.
Qed.

End LinkFacts.

Module VideoProperties.

Import Effect GeminiService PollSpec UrlSpec Scenarios PollFacts VideoFacts.

(** C1: in every run of the poll loop of [generateAdVideo] the events are
    whole rounds of one ten-second wait followed by one status check (and
    its log line), so there is exactly one status check per elapsed ten
    seconds; the loop returns on the first handle that reports [done],
    after as many rounds as it took status checks to get it, and it returns
    in no other way; and when no handle ever reports [done] the loop has
    not returned after any number of rounds, nor has [generateAdVideo]:
    nothing bounds the wait. *)
Theorem poll_loop_rounds :
  forall sdk started,
    (forall k last fuel,
        (forall j, j < k -> running_at sdk j 0 started = true) ->
        observe sdk k 0 started = inr last ->
        Js.truthy_bool (done last) = true ->
        k <= fuel ->
        completion (poll sdk fuel 0 started) = Returned last
        /\ map tick_of (events (poll sdk fuel 0 started)) = rounds k
        /\ status_checks (events (poll sdk fuel 0 started)) = k
        /\ elapsed (events (poll sdk fuel 0 started))
           = (10000 * Z.of_nat k)%Z)
    /\ (forall fuel last,
          completion (poll sdk fuel 0 started) = Returned last ->
          exists k,
            k <= fuel
            /\ (forall j, j < k -> running_at sdk j 0 started = true)
            /\ observe sdk k 0 started = inr last
            /\ Js.truthy_bool (done last) = true)
    /\ ((forall j, running_at sdk j 0 started = true) ->
        forall fuel,
          completion (poll sdk fuel 0 started) = Pending
          /\ map tick_of (events (poll sdk fuel 0 started)) = rounds fuel
          /\ status_checks (events (poll sdk fuel 0 started)) = fuel
          /\ elapsed (events (poll sdk fuel 0 started))
             = (10000 * Z.of_nat fuel)%Z
          /\ forall env ai prompt base64Image mimeType,
               generateVideos sdk (videoRequest prompt base64Image mimeType)
               = inr started ->
               completion (generateAdVideo env sdk ai fuel prompt base64Image
                             mimeType) = Pending).
Proof.
  intros sdk started. split; [|split].
  - intros k last fuel Hrun Hobs Hdone Hfuel.
    destruct (poll_exits sdk k 0 started last fuel Hrun Hobs Hdone Hfuel)
      as [Hret Hticks].
    repeat split; try assumption.
    + now apply status_checks_rounds.
    + now apply elapsed_rounds.
  - intros fuel last. apply poll_returns_first.
  - intros Hrun fuel.
    destruct (poll_keeps_waiting sdk fuel 0 started Hrun) as [Hp Hticks].
    repeat split; try assumption.
    + now apply status_checks_rounds.
    + now apply elapsed_rounds.
    + intros env ai prompt base64Image mimeType Hs.
      now apply video_pending with (started := started).
Qed.

(** A provider that completes on the second status check: two rounds,
    twenty seconds; and a provider that never completes: five rounds seen,
    still pending. *)
Lemma poll_loop_rounds_witness :
  (completion (poll (finishing_sdk 2 (finished_with (Some video_link)))
                 7 0 started_operation)
   = Returned (finished_with (Some video_link))
   /\ status_checks (events (poll (finishing_sdk 2 (finished_with (Some video_link)))
                               7 0 started_operation)) = 2
   /\ elapsed (events (poll (finishing_sdk 2 (finished_with (Some video_link)))
                         7 0 started_operation)) = 20000%Z)
  /\ (completion (poll stalled_sdk 5 0 started_operation) = Pending
      /\ status_checks (events (poll stalled_sdk 5 0 started_operation)) = 5).
Proof.
  split.
  - destruct (proj1 (poll_loop_rounds
                       (finishing_sdk 2 (finished_with (Some video_link)))
                       started_operation)
                2 (finished_with (Some video_link)) 7)
      as (Hret & _ & Hchecks & Helapsed).
    + intros [|[|j]] Hj; [reflexivity|reflexivity|lia].
    + reflexivity.
    + reflexivity.
    + lia.
    + repeat split; assumption.
  - destruct (proj2 (proj2 (poll_loop_rounds stalled_sdk started_operation))
                (fun j => stalled_observe j 0 started_operation eq_refl) 5)
      as (Hp & _ & Hchecks & _).
    split; assumption.
Defined.

(** C2: the code at a completed operation without a result.  The error
    for the missing link is raised and logged, then replaced: the caller
    gets the generic failure, not the missing-link error. *)
Theorem missing_link_leaves_as_generic_failure :
  generateAdVideo {| API_KEY := Some "test-key" |}
    (finishing_sdk 0 finished_empty) {| apiKey := Some "test-key" |} 3
    "A runner puts on the headphones." "aGVhZHBob25lcw==" "image/png"
  = ([ ConsoleLog "Starting video generation..." LogNothing;
       CallGenerateVideos
         (videoRequest "A runner puts on the headphones." "aGVhZHBob25lcw=="
                       "image/png");
       ConsoleLog "Video generation initiated, polling for result..." LogNothing;
       ConsoleError "Video generation failed:" no_download_link ],
     Threw video_generation_failed)
  /\ video_generation_failed <> no_download_link.
Proof. split; [reflexivity|discriminate]. Qed.

(** C7, as stated, fails: a download URI without a query string gets
    [&key=] and the key appended all the same; the result has no query, so
    the key is not a query parameter of it. *)
Lemma bare_link_counterexample :
  completion (generateAdVideo {| API_KEY := Some "test-key" |}
                (finishing_sdk 1 (finished_with (Some bare_link))) some_ai 3
                "A runner puts on the headphones." "aGVhZHBob25lcw==" "image/png")
  = Returned "https://videos.example/v1&key=test-key"
  /\ query_of "https://videos.example/v1&key=test-key" = None
  /\ has_parameter "key" "test-key" "https://videos.example/v1&key=test-key"
     = false
  /\ ~ key_is_a_query_parameter.
Proof.
  split; [vm_compute; reflexivity|].
  split; [vm_compute; reflexivity|].
  split; [vm_compute; reflexivity|].
  intros H.
  destruct (H {| API_KEY := Some "test-key" |}
              (finishing_sdk 1 (finished_with (Some bare_link))) some_ai 3
              "A runner puts on the headphones." "aGVhZHBob25lcw==" "image/png"
              "https://videos.example/v1&key=test-key")
    as (key & Hkey & Hparam); [reflexivity|vm_compute; reflexivity|].
  injection Hkey as <-. vm_compute in Hparam. discriminate Hparam.
Qed.

(** C7, amended: a call of [generateAdVideo] in a loaded module that
    returns, returns the provider's download URI, which is the non-empty
    [uri] of [generatedVideos[0].video] in the response of the completed
    operation, followed by [&key=] and the API key of the environment.
    The key is thereby a query parameter of the result when that URI
    already has a query (and neither it nor the key holds a [#], nor the
    key an [&]); when neither the URI nor the key holds a [?], the result
    has no query at all. *)
Theorem video_url_carries_key :
  forall env sdk ai fuel prompt base64Image mimeType url,
    load env = inr ai ->
    completion (generateAdVideo env sdk ai fuel prompt base64Image mimeType)
    = Returned url ->
    exists started finished r gv others v link key,
      generateVideos sdk (videoRequest prompt base64Image mimeType) = inr started
      /\ completion (poll sdk fuel 0 started) = Returned finished
      /\ Js.truthy_bool (done finished) = true
      /\ response finished = Some r
      /\ generatedVideos r = Some (gv :: others)
      /\ video gv = Some v
      /\ uri v = Some link
      /\ link <> EmptyString
      /\ API_KEY env = Some key
      /\ key <> EmptyString
      /\ url = link ++ "&key=" ++ key
      /\ (contains "?" link = true ->
          contains "#" link = false ->
          contains "#" key = false ->
          contains "&" key = false ->
          has_parameter "key" key url = true)
      /\ (contains "?" link = false ->
          contains "?" key = false ->
          query_of url = None).
Proof.
  intros env sdk ai fuel prompt base64Image mimeType url Hload H.
  destruct (LoadFacts.load_inr_key _ _ Hload) as (key & Hkey & Hne).
  rewrite video_completion, video_try_completion in H.
  destruct (generateVideos sdk _) as [t|started] eqn:Hs; [discriminate H|].
  destruct (completion (poll sdk fuel 0 started)) as [finished|t|] eqn:Hp;
    try discriminate H.
  destruct (downloadLink_of finished) as [link|] eqn:Hl; simpl in H;
    [|discriminate H].
  destruct link as [|c rest]; simpl in H; [discriminate H|].
  destruct (LinkFacts.downloadLink_of_inv _ _ Hl)
    as (r & gv & others & v & Hr & Hgv & Hv & Hu).
  exists started, finished, r, gv, others, v, (String c rest), key.
  rewrite Hkey in H. simpl in H. injection H as <-.
  repeat split; try assumption; try discriminate.
  - apply (poll_returns_done sdk fuel 0 started finished Hp).
  - intros Hq Hh Hhk Hak.
    now apply (LinkFacts.key_is_parameter (String c rest) key).
  - intros Hq Hqk.
    now apply (LinkFacts.no_query (String c rest) key).
Qed.

(** Completion on the second status check, with a download URI that has
    a query: the URI, then the key, which is a parameter of the result. *)
Lemma video_url_carries_key_witness :
  has_parameter "key" "test-key"
    "https://videos.example/v1?alt=media&key=test-key" = true
  /\ exists started finished r gv others v link key,
      generateVideos (finishing_sdk 2 (finished_with (Some video_link)))
        (videoRequest "A runner puts on the headphones." "aGVhZHBob25lcw=="
                      "image/png") = inr started
      /\ completion (poll (finishing_sdk 2 (finished_with (Some video_link)))
                       7 0 started) = Returned finished
      /\ Js.truthy_bool (done finished) = true
      /\ response finished = Some r
      /\ generatedVideos r = Some (gv :: others)
      /\ video gv = Some v
      /\ uri v = Some link
      /\ link <> EmptyString
      /\ API_KEY {| API_KEY := Some "test-key" |} = Some key
      /\ key <> EmptyString
      /\ "https://videos.example/v1?alt=media&key=test-key"
         = link ++ "&key=" ++ key
      /\ (contains "?" link = true ->
          contains "#" link = false ->
          contains "#" key = false ->
          contains "&" key = false ->
          has_parameter "key" key
            "https://videos.example/v1?alt=media&key=test-key" = true)
      /\ (contains "?" link = false ->
          contains "?" key = false ->
          query_of "https://videos.example/v1?alt=media&key=test-key" = None).
Proof.
  split; [vm_compute; reflexivity|].
  apply (video_url_carries_key
           {| API_KEY := Some "test-key" |}
           (finishing_sdk 2 (finished_with (Some video_link)))
           {| apiKey := Some "test-key" |} 7
           "A runner puts on the headphones." "aGVhZHBob25lcw==" "image/png"
           "https://videos.example/v1?alt=media&key=test-key");
    reflexivity.
Defined.

End VideoProperties.

(** ** [AdDisplay]: the scene cards *)

Module DisplayProperties.

Import Types AdDisplay.

Lemma is_card_sceneCard scene : is_card (sceneCard scene) = true.
Proof. reflexivity. Qed.

Lemma filter_cards ss : filter is_card (map sceneCard ss) = map sceneCard ss.
Proof.
  induction ss as [|s ss IH]; simpl; [reflexivity|]. now rewrite IH.
Qed.

Lemma displayed_cards_section adScript :
  displayed_cards (scriptSection adScript) = map sceneCard (scenes adScript).
Proof. unfold displayed_cards, scriptSection. simpl. apply filter_cards. Qed.

Lemma scene_of_sceneCard scene : scene_of (sceneCard scene) = Some scene.
Proof. destruct scene. reflexivity. Qed.

Lemma append_empty_r (s : string) : s ++ EmptyString = s.
Proof. induction s as [|c s IH]; simpl; [reflexivity|now rewrite IH]. Qed.

Lemma heading_of_sceneCard scene :
  heading_of (sceneCard scene)
  = "SCENE " ++ Js.number_to_string (sceneNumber scene).
Proof.
  unfold heading_of, sceneCard, text_of.
  now rewrite append_empty_r.
Qed.

(** C5: the scene cards that [AdDisplay] shows for a script are one card
    per element of [scenes], in the order of the array, each showing its
    scene; three scenes numbered 1, 2, 3 give exactly the three cards
    headed SCENE 1, SCENE 2, SCENE 3, in this order. *)
Theorem scene_cards_follow_scenes :
  forall adScript,
    let cards := displayed_cards (scriptSection adScript) in
    List.length cards = List.length (scenes adScript)
    /\ map scene_of cards = map Some (scenes adScript)
    /\ (forall i, nth_error cards i
                  = option_map sceneCard (nth_error (scenes adScript) i))
    /\ map heading_of cards
       = map (fun scene => "SCENE " ++ Js.number_to_string (sceneNumber scene))
             (scenes adScript)
    /\ forall title tagline se1 a1 d1 so1 se2 a2 d2 so2 se3 a3 d3 so3,
         map heading_of
           (displayed_cards
              (scriptSection
                 (mkAdScript title tagline
                    [ mkScene 1 se1 a1 d1 so1;
                      mkScene 2 se2 a2 d2 so2;
                      mkScene 3 se3 a3 d3 so3 ])))
         = ["SCENE 1"; "SCENE 2"; "SCENE 3"].
Proof.
  intros adScript cards. subst cards.
  rewrite displayed_cards_section.
  split; [apply length_map|].
  split.
  - rewrite map_map. apply map_ext. apply scene_of_sceneCard.
  - split; [intros i; apply nth_error_map|].
    split.
    + rewrite map_map. apply map_ext. apply heading_of_sceneCard.
    + intros. reflexivity.
Qed.

End DisplayProperties.

(** ** [App]: the two resets *)

Module AppProperties.

Import Types App AppSpec.

Lemma cleared_interval_gone id ts :
  existsb (Nat.eqb id) (filter (fun t => negb (Nat.eqb t id)) ts) = false.
Proof.
  induction ts as [|t ts IH]; simpl; [reflexivity|].
  destruct (Nat.eqb t id) eqn:E; simpl; [exact IH|].
  rewrite Nat.eqb_sym, E. exact IH.
Qed.

(** The state right after a failed submission shows the error with its
    Try Again button, which is wired to the hard reset. *)
Lemma script_error_state s file err :
  imageFile s = Some file ->
  let e := handleGenerateScript_settle (inl err) (handleGenerateScript_begin s) in
  let msg := message_or "An unknown error occurred. Please check the console." err in
  error e = Some msg
  /\ adScript e = None
  /\ isLoading e = false
  /\ imageFile e = Some file
  /\ (Js.truthy_string msg = true ->
      panels e = [ InputForm (imagePreview s) (productDescription s)
                             HandleHardReset false;
                   ErrorPanel msg HandleHardReset ]).
Proof.
  intros Hf. unfold handleGenerateScript_settle, handleGenerateScript_begin.
  rewrite Hf. destruct s as [f p d a l e vl vm vu ve ref ts]. simpl in *.
  repeat split; [exact Hf|].
  unfold panels. simpl. rewrite Hf. simpl. intros ->. reflexivity.
Qed.

(** C6: in every state of [App], so also after a script error, both
    resets clear the error, the script and the video state (and stop the
    loading-message timer) and leave only the input form on screen, with an
    empty description; [handleReset] keeps the selected image and its
    preview, [handleHardReset] clears them as well. *)
Theorem resets_return_to_input_form :
  forall s,
    let soft := handleReset s in
    let hard := handleHardReset s in
    (error soft = None /\ adScript soft = None /\ isLoading soft = false
     /\ videoUrl soft = None /\ videoError soft = None
     /\ isVideoLoading soft = false
     /\ loading_interval_running (loadingIntervalRef s) soft = false
     /\ productDescription soft = EmptyString
     /\ imageFile soft = imageFile s
     /\ imagePreview soft = imagePreview s
     /\ panels soft
        = [InputForm (imagePreview s) EmptyString HandleHardReset
                     (negb (isSome (imageFile s)))])
    /\ (error hard = None /\ adScript hard = None /\ isLoading hard = false
        /\ videoUrl hard = None /\ videoError hard = None
        /\ isVideoLoading hard = false
        /\ loading_interval_running (loadingIntervalRef s) hard = false
        /\ productDescription hard = EmptyString
        /\ imageFile hard = None
        /\ imagePreview hard = None
        /\ panels hard = [InputForm None EmptyString HandleHardReset true]).
Proof.
  intros s soft hard. subst soft hard.
  unfold handleHardReset, handleReset, run, clearLoadingInterval,
    loading_interval_running, panels.
  destruct s as [f p d a l e vl vm vu ve [id|] ts]; simpl;
    repeat split; try reflexivity;
    try apply cleared_interval_gone;
    destruct f; reflexivity.
Qed.

End AppProperties.

(* ===================================================================== *)
(** * Further properties *)
(* ===================================================================== *)

(** ** The service: what a caller can get back *)

Module ServiceProperties.

Import Effect GeminiService ScriptSpec PollSpec VideoSpec Scenarios.

Lemma events_try_catch {E A} (body : M E A) handler :
  events (try_catch body handler)
  = (events body
     ++ match completion body with
        | Threw t => events (handler t)
        | _ => []
        end)%list.
Proof.
  unfold events, completion, try_catch.
  destruct (snd body); simpl; now rewrite ?app_nil_r.
Qed.

Lemma videos_calls_app es es' :
  videos_calls (es ++ es') = videos_calls es + videos_calls es'.
Proof. unfold videos_calls. now rewrite filter_app, length_app. Qed.

(** The loop never submits a generation. *)
Lemma poll_no_submit sdk fuel : forall checks operation,
  videos_calls (events (poll sdk fuel checks operation)) = 0.
Proof.
  induction fuel as [|fuel IH]; intros checks operation;
    destruct (Js.truthy_bool (done operation)) eqn:Hd.
  - now rewrite (PollFacts.poll_done _ _ _ _ Hd).
  - simpl. now rewrite Hd.
  - now rewrite (PollFacts.poll_done _ _ _ _ Hd).
  - destruct (getVideosOperation sdk checks operation) as [t|operation'] eqn:Hc.
    + simpl. rewrite Hd. unfold bind, settle, emit, throw. simpl.
      now rewrite Hc.
    + rewrite (PollFacts.poll_round _ _ _ _ _ Hd Hc). unfold events. simpl.
      apply IH.
Qed.

Lemma video_try_one_submit env sdk fuel prompt base64Image mimeType :
  videos_calls (events (generateAdVideo_try env sdk fuel prompt base64Image
                          mimeType)) = 1.
Proof.
  pose proof (poll_no_submit sdk fuel 0) as Hpoll.
  unfold generateAdVideo_try, events, bind, settle, emit, ret, throw.
  simpl.
  destruct (generateVideos sdk _) as [t|started]; simpl; [reflexivity|].
  specialize (Hpoll started). unfold events in Hpoll.
  destruct (poll sdk fuel 0 started) as [es [finished|t|]]; simpl in *;
    try destruct (Js.truthy (downloadLink_of finished)); simpl;
    unfold videos_calls in *; simpl; rewrite ?filter_app, ?length_app;
    simpl; rewrite ?Hpoll; reflexivity.
Qed.

(** X1: when [generateAdVideo] fails, it throws the quota error if the
    caught value is an [Error] whose message contains "429" or
    "RESOURCE_EXHAUSTED", and the generic video error otherwise; and it
    has submitted exactly one generation. *)
Theorem video_failure_classified :
  forall env sdk ai fuel prompt base64Image mimeType t,
    completion (generateAdVideo_try env sdk fuel prompt base64Image mimeType)
    = Threw t ->
    completion (generateAdVideo env sdk ai fuel prompt base64Image mimeType)
    = Threw (if Js.is_error_including "429" t
                || Js.is_error_including "RESOURCE_EXHAUSTED" t
             then quota_exceeded
             else video_generation_failed)
    /\ videos_calls (events (generateAdVideo env sdk ai fuel prompt base64Image
                               mimeType)) = 1.
Proof.
  intros env sdk ai fuel prompt base64Image mimeType t H. split.
  - rewrite VideoFacts.video_completion. now rewrite H.
  - unfold generateAdVideo. rewrite events_try_catch, videos_calls_app.
    rewrite video_try_one_submit, H.
    unfold generateAdVideo_catch, events, bind, emit, throw. simpl.
    destruct (_ || _); reflexivity.
Qed.

(** A refused submission that names the exhausted quota. *)
Lemma video_failure_classified_witness :
  completion (generateAdVideo {| API_KEY := Some "test-key" |}
                (refusing_sdk resource_exhausted) some_ai 3
                "A runner puts on the headphones." "aGVhZHBob25lcw==" "image/png")
  = Threw quota_exceeded
  /\ videos_calls (events (generateAdVideo {| API_KEY := Some "test-key" |}
                             (refusing_sdk resource_exhausted) some_ai 3
                             "A runner puts on the headphones."
                             "aGVhZHBob25lcw==" "image/png")) = 1.
Proof.
  apply (video_failure_classified {| API_KEY := Some "test-key" |}
           (refusing_sdk resource_exhausted) some_ai 3
           "A runner puts on the headphones." "aGVhZHBob25lcw==" "image/png"
           resource_exhausted).
  reflexivity.
Defined.

Lemma script_throws_own_errors_cases
    sdk JSON_parse ai base64Image mimeType productDescription t :
  completion (generateAdScript sdk JSON_parse ai base64Image mimeType
                productDescription) = Threw t ->
  t = rate_limit_exceeded \/ t = script_generation_failed.
Proof.
  intros H.
  destruct (completion (generateAdScript_try sdk JSON_parse base64Image
                          mimeType productDescription)) as [v|cause|] eqn:Hb.
  - apply (ScriptFacts.script_returned sdk JSON_parse ai) in Hb.
    rewrite Hb in H. discriminate H.
  - rewrite (ScriptFacts.script_threw sdk JSON_parse ai _ _ _ _ Hb) in H.
    injection H as <-. unfold rethrown.
    destruct (Js.is_error_including _ _); [now left|now right].
  - unfold generateAdScript in H.
    rewrite (EffectFacts.completion_try_catch_pending _ _ Hb) in H.
    discriminate H.
Qed.

Lemma video_throws_own_errors_cases
    env sdk ai fuel prompt base64Image mimeType t :
  completion (generateAdVideo env sdk ai fuel prompt base64Image mimeType)
  = Threw t ->
  t = quota_exceeded \/ t = video_generation_failed.
Proof.
  intros H. rewrite VideoFacts.video_completion in H.
  destruct (completion (generateAdVideo_try _ _ _ _ _ _)) as [url|cause|];
    try discriminate H.
  injection H as <-. unfold video_rethrown.
  destruct (_ || _); [now left|now right].
Qed.

(** X2: whatever makes [generateAdScript] fail, the caller only ever
    catches one of its two own errors, the rate-limit error or the generic
    one, never the provider's or the engine's error. *)
Theorem script_throws_own_errors :
  forall sdk JSON_parse ai base64Image mimeType productDescription t,
    completion (generateAdScript sdk JSON_parse ai base64Image mimeType
                  productDescription) = Threw t ->
    t = rate_limit_exceeded \/ t = script_generation_failed.
Proof.
  intros sdk JSON_parse ai base64Image mimeType productDescription t.
  apply script_throws_own_errors_cases.
Qed.

Lemma script_throws_own_errors_witness :
  rate_limit_exceeded = rate_limit_exceeded
  \/ rate_limit_exceeded = script_generation_failed.
Proof.
  apply (script_throws_own_errors (content_sdk (inl token_limit_error))
           JsonReader.parse some_ai "aGVhZHBob25lcw==" "image/png"
           "wireless headphones" rate_limit_exceeded).
  reflexivity.
Defined.

(** X3: whatever makes [generateAdVideo] fail (a refused submission, a
    rejected status check, a missing link), the caller only ever catches
    the quota error or the generic video error. *)
Theorem video_throws_own_errors :
  forall env sdk ai fuel prompt base64Image mimeType t,
    completion (generateAdVideo env sdk ai fuel prompt base64Image mimeType)
    = Threw t ->
    t = quota_exceeded \/ t = video_generation_failed.
Proof.
  intros env sdk ai fuel prompt base64Image mimeType t.
  apply video_throws_own_errors_cases.
Qed.

Lemma video_throws_own_errors_witness :
  video_generation_failed = quota_exceeded
  \/ video_generation_failed = video_generation_failed.
Proof.
  apply (video_throws_own_errors {| API_KEY := Some "test-key" |}
           (refusing_sdk network_error) some_ai 3
           "A runner puts on the headphones." "aGVhZHBob25lcw==" "image/png"
           video_generation_failed).
  reflexivity.
Defined.

Lemma round_counts operation label value es :
  status_checks (SetTimeout 10000 :: CallGetVideosOperation operation
                   :: ConsoleLog label value :: es)
  = S (status_checks es)
  /\ elapsed (SetTimeout 10000 :: CallGetVideosOperation operation
                :: ConsoleLog label value :: es)
     = (10000 + elapsed es)%Z.
Proof. split; reflexivity. Qed.

(** A rejected status check ends the loop. *)
Lemma poll_rejected sdk k : forall checks operation t fuel,
  (forall j, j <= k -> running_at sdk j checks operation = true) ->
  observe sdk (S k) checks operation = inl t ->
  k < fuel ->
  completion (poll sdk fuel checks operation) = Threw t
  /\ status_checks (events (poll sdk fuel checks operation)) = S k
  /\ elapsed (events (poll sdk fuel checks operation))
     = (10000 * Z.of_nat (S k))%Z.
Proof.
  induction k as [|k IH]; intros checks operation t fuel Hrun Hobs Hfuel;
    (destruct fuel as [|fuel]; [lia|]);
    pose proof (PollFacts.running_at_0 _ _ _ (Hrun 0 ltac:(lia))) as Hd.
  - simpl in Hobs.
    destruct (getVideosOperation sdk checks operation) as [t'|operation'] eqn:Hc;
      [|discriminate Hobs].
    injection Hobs as ->. simpl. rewrite Hd.
    unfold bind, settle, emit, throw, completion, events. simpl.
    rewrite Hc. simpl. repeat split.
  - simpl in Hobs.
    destruct (getVideosOperation sdk checks operation) as [t'|operation'] eqn:Hc.
    + specialize (Hrun 1 ltac:(lia)). unfold running_at in Hrun.
      simpl in Hrun. rewrite Hc in Hrun. discriminate Hrun.
    + destruct (IH (S checks) operation' t fuel) as (Hthrew & Hchecks & Hel);
        [ | exact Hobs | lia | ].
      * intros j Hj. rewrite <- (PollFacts.running_at_S _ j _ _ _ Hc).
        apply Hrun. lia.
      * rewrite (PollFacts.poll_round _ _ _ _ _ Hd Hc).
        unfold completion, events in *. cbn [fst snd].
        destruct (round_counts operation "Polling... done:"
                    (LogDone (done operation'))
                    (fst (poll sdk fuel (S checks) operation'))) as [-> ->].
        rewrite Hchecks, Hel. repeat split; [exact Hthrew|lia].
Qed.

(** X4: a status check that is rejected is not repeated: when the first
    [k] checks find the operation running and the next one is rejected,
    the loop has waited and checked [k + 1] times and [generateAdVideo]
    fails with the quota error or the generic error, by the message of
    the rejection. *)
Theorem rejected_check_ends_the_wait :
  forall env sdk ai k started t fuel prompt base64Image mimeType,
    generateVideos sdk (videoRequest prompt base64Image mimeType) = inr started ->
    (forall j, j <= k -> running_at sdk j 0 started = true) ->
    observe sdk (S k) 0 started = inl t ->
    k < fuel ->
    status_checks (events (poll sdk fuel 0 started)) = S k
    /\ elapsed (events (poll sdk fuel 0 started)) = (10000 * Z.of_nat (S k))%Z
    /\ completion (generateAdVideo env sdk ai fuel prompt base64Image mimeType)
       = Threw (video_rethrown t).
Proof.
  intros env sdk ai k started t fuel prompt base64Image mimeType
         Hs Hrun Hobs Hfuel.
  destruct (poll_rejected sdk k 0 started t fuel Hrun Hobs Hfuel)
    as (Hthrew & Hchecks & Hel).
  repeat split; try assumption.
  rewrite VideoFacts.video_completion, VideoFacts.video_try_completion.
  now rewrite Hs, Hthrew.
Qed.

(** The third status check is rejected for an exhausted quota. *)
Lemma rejected_check_ends_the_wait_witness :
  status_checks (events (poll (failing_check_sdk 2 resource_exhausted) 9 0
                           started_operation)) = 3
  /\ elapsed (events (poll (failing_check_sdk 2 resource_exhausted) 9 0
                        started_operation)) = 30000%Z
  /\ completion (generateAdVideo {| API_KEY := Some "test-key" |}
                   (failing_check_sdk 2 resource_exhausted) some_ai 9
                   "A runner puts on the headphones." "aGVhZHBob25lcw=="
                   "image/png")
     = Threw quota_exceeded.
Proof.
  apply (rejected_check_ends_the_wait {| API_KEY := Some "test-key" |}
           (failing_check_sdk 2 resource_exhausted) some_ai 2 started_operation
           resource_exhausted 9 "A runner puts on the headphones."
           "aGVhZHBob25lcw==" "image/png").
  - reflexivity.
  - intros [|[|[|j]]] Hj; [reflexivity|reflexivity|reflexivity|lia].
  - reflexivity.
  - lia.
Defined.

(** X5: a call of [generateAdScript] sends its one request and, when it
    fails, writes the error it caught (the provider's, the engine's) to
    the console before replacing it; a call that succeeds writes
    nothing. *)
Theorem script_logs_the_cause :
  forall sdk JSON_parse ai base64Image mimeType productDescription,
    events (generateAdScript sdk JSON_parse ai base64Image mimeType
              productDescription)
    = CallGenerateContent (scriptRequest base64Image mimeType productDescription)
      :: match completion (generateAdScript_try sdk JSON_parse base64Image
                             mimeType productDescription) with
         | Threw cause => [ConsoleError "Gemini API call failed:" cause]
         | _ => []
         end.
Proof.
  intros sdk JSON_parse ai base64Image mimeType productDescription.
  unfold generateAdScript. rewrite events_try_catch.
  unfold generateAdScript_try, generateAdScript_catch, events, completion,
    bind, settle, emit, ret, throw. simpl.
  destruct (generateContent sdk _) as [rejected|[[txt|]]]; simpl.
  - destruct (Js.is_error_including _ _); reflexivity.
  - destruct (JSON_parse (Js.trim txt)) as [syntax|v]; simpl; [|reflexivity].
    destruct (Js.includes _ _); reflexivity.
  - reflexivity.
Qed.

End ServiceProperties.

(** ** [AdDisplay]: the copied text and the download name *)

Module CopyProperties.

Import Types AdDisplay DisplaySpec.

Lemma append_assoc (a b c : string) : (a ++ b) ++ c = a ++ (b ++ c).
Proof. induction a as [|x a IH]; simpl; [reflexivity|now rewrite IH]. Qed.

Lemma copy_loop ss : forall text,
  fold_left
    (fun text scene =>
       let text := text ++ ("SCENE " ++ Js.number_to_string (sceneNumber scene) ++ nl) in
       let text := text ++ ("SETTING: " ++ setting scene ++ nl) in
       let text := text ++ ("ACTION: " ++ action scene ++ nl) in
       let text := text ++ ("DIALOGUE: " ++ dialogue scene ++ nl) in
       text ++ ("SOUND: " ++ sound scene ++ nl ++ nl))
    ss text
  = text ++ String.concat EmptyString (map sceneBlock ss).
Proof.
  induction ss as [|s ss IH]; intros text.
  - simpl. now rewrite DisplayProperties.append_empty_r.
  - cbn [fold_left]. rewrite IH. clear IH.
    assert (Hblocks : String.concat EmptyString (map sceneBlock (s :: ss))
                      = sceneBlock s ++ String.concat EmptyString (map sceneBlock ss)).
    { cbn [map String.concat]. destruct (map sceneBlock ss); simpl.
      - now rewrite DisplayProperties.append_empty_r.
      - reflexivity. }
    rewrite Hblocks. unfold sceneBlock.
    rewrite DisplayProperties.heading_of_sceneCard.
    rewrite !append_assoc. reflexivity.
Qed.

(** X6: the text that [formatScriptForCopy] builds line by line is the
    title, tagline and separator lines followed by one block per scene, in
    the order of the array; each block opens with the heading of the
    scene's card; a script without scenes gives the header alone. *)
Theorem copy_text_lists_scenes :
  forall script,
    formatScriptForCopy script
    = copyHeader script ++ String.concat EmptyString (map sceneBlock (scenes script)).
Proof.
  intros script. unfold formatScriptForCopy. rewrite copy_loop.
  unfold copyHeader. rewrite !append_assoc. reflexivity.
Qed.

Lemma no_white_space_app a b :
  no_white_space (a ++ b) = no_white_space a && no_white_space b.
Proof.
  induction a as [|c a IH]; simpl; [reflexivity|].
  rewrite IH. now rewrite andb_assoc.
Qed.

Lemma replaced_has_no_space s : forall in_run,
  no_white_space (replaceWhitespaceRuns in_run s) = true.
Proof.
  induction s as [|c s IH]; intros in_run; simpl; [reflexivity|].
  destruct (Js.is_white_space c) eqn:Hc.
  - destruct in_run; simpl; apply IH.
  - simpl. rewrite Hc. simpl. apply IH.
Qed.

Lemma replaced_is_same s : forall in_run,
  no_white_space s = true -> replaceWhitespaceRuns in_run s = s.
Proof.
  induction s as [|c s IH]; intros in_run H; simpl in *; [reflexivity|].
  apply andb_prop in H. destruct H as [Hc Hs].
  apply negb_true_iff in Hc. rewrite Hc. now rewrite IH.
Qed.

(** X7: the name under which the video is downloaded never contains
    white space, whatever the title; a title without white space is used
    as it is, between [ad-video-] and [.mp4]. *)
Theorem download_name_has_no_space :
  forall adScript,
    no_white_space (downloadName adScript) = true
    /\ (no_white_space (title adScript) = true ->
        downloadName adScript = "ad-video-" ++ title adScript ++ ".mp4").
Proof.
  intros adScript. unfold downloadName. split.
  - rewrite !no_white_space_app, replaced_has_no_space. reflexivity.
  - intros H. now rewrite replaced_is_same.
Qed.

Lemma download_name_has_no_space_witness :
  no_white_space (downloadName headphones) = true
  /\ downloadName (mkAdScript "Headphones" "Your World." [])
     = "ad-video-Headphones.mp4".
Proof.
  split.
  - apply (proj1 (download_name_has_no_space headphones)).
  - apply (proj2 (download_name_has_no_space
                    (mkAdScript "Headphones" "Your World." []))).
    reflexivity.
Defined.

End CopyProperties.

(** ** [ImageUploader]: which file is handed on *)

Module UploaderProperties.

Import App ImageUploader SessionSpec.

(** X8: of the files chosen or dropped, only the first is looked at: it
    is handed to [onFileSelect], and nothing else is done, exactly when
    its type starts with [image/]; otherwise an alert is shown and nothing
    is selected, even if an image follows; no file is ever handed on that
    is not an image; nothing at all is done for [null] or an empty list; a
    drop ends the dragging state whatever was dropped. *)
Theorem only_a_leading_image_is_selected :
  forall files,
    (forall f rest, files = Some (f :: rest) -> is_image f = true ->
                    handleFileChange files = [OnFileSelect f])
    /\ (forall f rest, files = Some (f :: rest) -> is_image f = false ->
                       handleFileChange files = [Alert "Please upload an image file."])
    /\ (forall f, In (OnFileSelect f) (handleFileChange files) ->
                  is_image f = true
                  /\ handleFileChange files = [OnFileSelect f]
                  /\ exists rest, files = Some (f :: rest))
    /\ handleFileChange None = []
    /\ handleFileChange (Some []) = []
    /\ forall isDragging, onDrop files isDragging = (false, handleFileChange files).
Proof.
  intros files. split; [|split; [|split]].
  - intros f rest -> H. unfold is_image in H. simpl. now rewrite H.
  - intros f rest -> H. unfold is_image in H. simpl. now rewrite H.
  - intros f H.
    destruct files as [[|file rest]|]; simpl in H; try contradiction.
    unfold is_image. simpl.
    destruct (Js.startsWith _ _) eqn:E; destruct H as [H|[]];
      [|discriminate H].
    injection H as <-. repeat split; [exact E|now exists rest].
  - repeat split.
Qed.

Lemma only_a_leading_image_is_selected_witness :
  handleFileChange (Some [photo; manual]) = [OnFileSelect photo]
  /\ handleFileChange (Some [manual; photo]) = [Alert "Please upload an image file."]
  /\ is_image photo = true.
Proof.
  split; [|split].
  - apply (proj1 (only_a_leading_image_is_selected (Some [photo; manual]))
             photo [manual]); reflexivity.
  - apply (proj1 (proj2 (only_a_leading_image_is_selected (Some [manual; photo])))
             manual [photo]); reflexivity.
  - apply (proj1 (proj2 (proj2 (only_a_leading_image_is_selected
                                  (Some [photo; manual]))))
             photo).
    left. reflexivity.
Defined.

End UploaderProperties.

(** ** [App]: the handlers, one at a time *)

Module HandlerProperties.

Import Types App AppSpec SessionSpec.

(** *** The resets, field by field *)

Lemma handleReset_fields s :
  handleReset s
  = mkState (imageFile s) (imagePreview s) EmptyString None false None false
            (videoLoadingMessage s) None None (loadingIntervalRef s)
            (intervals (clearLoadingInterval s)).
Proof. destruct s as [f p d a l e vl vm vu ve [id|] ts]; reflexivity. Qed.

Lemma handleHardReset_fields s :
  handleHardReset s
  = mkState None None EmptyString None false None false
            (videoLoadingMessage s) None None (loadingIntervalRef s)
            (intervals (clearLoadingInterval s)).
Proof. destruct s as [f p d a l e vl vm vu ve [id|] ts]; reflexivity. Qed.

(** *** The loading message *)

Lemma next_of_listed i :
  i < 8 ->
  nextLoadingMessage (nth i LOADING_MESSAGES EmptyString)
  = nth ((i + 1) mod 8) LOADING_MESSAGES EmptyString.
Proof.
  intros H.
  do 8 (destruct i as [|i]; [vm_compute; reflexivity|]).
  lia.
Qed.

Lemma indexOf_from_absent x l : forall i,
  ~ In x l -> indexOf_from i x l = (-1)%Z.
Proof.
  induction l as [|y l IH]; intros i H; simpl; [reflexivity|].
  destruct (String.eqb x y) eqn:E.
  - apply String.eqb_eq in E. subst. exfalso. apply H. now left.
  - apply IH. intros Hin. apply H. now right.
Qed.

Lemma indexOf_from_range x l : forall i,
  indexOf_from i x l = (-1)%Z
  \/ (i <= indexOf_from i x l < i + Z.of_nat (List.length l))%Z.
Proof.
  induction l as [|y l IH]; intros i; simpl; [now left|].
  destruct (String.eqb x y).
  - right. lia.
  - destruct (IH (i + 1)%Z) as [H|H]; [now left|right; lia].
Qed.

Lemma next_is_listed prev : In (nextLoadingMessage prev) LOADING_MESSAGES.
Proof.
  unfold nextLoadingMessage, indexOf.
  apply nth_In.
  destruct (indexOf_from_range prev LOADING_MESSAGES 0) as [->|H].
  - vm_compute. lia.
  - change (Z.of_nat (List.length LOADING_MESSAGES)) with 8%Z in *.
    assert (Hr : (0 <= Z.rem (indexOf_from 0 prev LOADING_MESSAGES + 1) 8 < 8)%Z).
    { apply Z.rem_bound_pos; lia. }
    change (List.length LOADING_MESSAGES) with 8. lia.
Qed.

Lemma ticks_keep_state n : forall s,
  videoLoadingMessage (Nat.iter n loadingTick s)
  = Nat.iter n nextLoadingMessage (videoLoadingMessage s).
Proof.
  induction n as [|n IH]; intros s; [reflexivity|].
  rewrite !Nat.iter_succ. unfold loadingTick at 1.
  destruct (Nat.iter n loadingTick s) eqn:E. simpl.
  rewrite <- IH, E. reflexivity.
Qed.

Lemma rotation n :
  Nat.iter n nextLoadingMessage (hd EmptyString LOADING_MESSAGES)
  = nth (n mod 8) LOADING_MESSAGES EmptyString.
Proof.
  induction n as [|n IH]; [reflexivity|].
  rewrite Nat.iter_succ, IH, next_of_listed.
  - f_equal. rewrite Nat.Div0.add_mod_idemp_l. f_equal. lia.
  - apply Nat.mod_upper_bound. lia.
Qed.

(** X9: while a video is generated the loading message rotates through
    [LOADING_MESSAGES] in order and starts over after the last: [n]
    firings of the interval after the start of [handleGenerateVideo] show
    message number [n mod 8]; the next message is always one of the list,
    and after any text that is not in the list it is the first. *)
Theorem loading_messages_rotate :
  forall s n,
    isSome (adScript s) && isSome (imageFile s) = true ->
    videoLoadingMessage (Nat.iter n loadingTick (handleGenerateVideo_begin s))
    = nth (n mod 8) LOADING_MESSAGES EmptyString
    /\ (forall prev, In (nextLoadingMessage prev) LOADING_MESSAGES)
    /\ (forall prev, ~ In prev LOADING_MESSAGES ->
                     nextLoadingMessage prev = hd EmptyString LOADING_MESSAGES).
Proof.
  intros s n H. split; [|split].
  - rewrite ticks_keep_state.
    assert (Hm : videoLoadingMessage (handleGenerateVideo_begin s)
                 = hd EmptyString LOADING_MESSAGES).
    { unfold handleGenerateVideo_begin.
      destruct (adScript s); [|discriminate H].
      destruct (imageFile s); [|discriminate H]. reflexivity. }
    rewrite Hm. apply rotation.
  - apply next_is_listed.
  - intros prev Hp. unfold nextLoadingMessage, indexOf.
    now rewrite (indexOf_from_absent _ _ 0%Z Hp).
Qed.

Lemma loading_messages_rotate_witness :
  videoLoadingMessage
    (Nat.iter 9 loadingTick
       (handleGenerateVideo_begin (setAdScript (Some DisplaySpec.headphones) ready)))
  = "Storyboarding your vision...".
Proof.
  apply (proj1 (loading_messages_rotate
                  (setAdScript (Some DisplaySpec.headphones) ready) 9 eq_refl)).
Defined.

(** *** [handleGenerateScript] *)

(** X10: [handleGenerateScript] writes the script, the error and
    [isLoading] and nothing else, before and after its [await].  Up to the
    [await]: without an image it only sets the error and goes no further;
    with one it turns [isLoading] on and clears the error and the script.
    When the awaited calls have settled, in whatever state [App] is then:
    [isLoading] is turned off; if they threw, the error becomes the
    message of the thrown [Error] (a fixed text for any other thrown
    value) and the script is left as it is; if they returned a script or
    [null], that is stored and the error is left as it is, so a returned
    [null] sets neither the script nor the error. *)
Theorem generate_script_writes_its_cells :
  forall s,
    (let b := handleGenerateScript_begin s in
     (imageFile b = imageFile s /\ imagePreview b = imagePreview s
      /\ productDescription b = productDescription s
      /\ videoUrl b = videoUrl s /\ videoError b = videoError s
      /\ isVideoLoading b = isVideoLoading s
      /\ videoLoadingMessage b = videoLoadingMessage s
      /\ loadingIntervalRef b = loadingIntervalRef s
      /\ intervals b = intervals s)
     /\ (imageFile s = None ->
         error b = Some "Please upload a product image first."
         /\ adScript b = adScript s /\ isLoading b = isLoading s)
     /\ (isSome (imageFile s) = true ->
         isLoading b = true /\ error b = None /\ adScript b = None))
    /\ forall outcome,
         let e := handleGenerateScript_settle outcome s in
         (imageFile e = imageFile s /\ imagePreview e = imagePreview s
          /\ productDescription e = productDescription s
          /\ videoUrl e = videoUrl s /\ videoError e = videoError s
          /\ isVideoLoading e = isVideoLoading s
          /\ videoLoadingMessage e = videoLoadingMessage s
          /\ loadingIntervalRef e = loadingIntervalRef s
          /\ intervals e = intervals s)
         /\ isLoading e = false
         /\ match outcome with
            | inl (Js.ThrownError err) =>
                error e = Some (Js.message err) /\ adScript e = adScript s
            | inl (Js.ThrownValue _) =>
                error e = Some "An unknown error occurred. Please check the console."
                /\ adScript e = adScript s
            | inr result =>
                adScript e = result /\ error e = error s
            end.
Proof.
  intros s. destruct s as [f p d a l e vl vm vu ve ref ts].
  unfold handleGenerateScript_begin, handleGenerateScript_settle, run.
  split.
  - simpl. destruct f as [file|]; simpl; repeat split; discriminate.
  - intros [[err|v]|result]; simpl; repeat split.
Qed.

Lemma generate_script_writes_its_cells_witness :
  error (handleGenerateScript_begin initial)
  = Some "Please upload a product image first."
  /\ isLoading (handleGenerateScript_begin ready) = true.
Proof.
  split.
  - apply (proj1 (proj2 (proj1 (generate_script_writes_its_cells initial)))).
    reflexivity.
  - apply (proj2 (proj2 (proj1 (generate_script_writes_its_cells ready)))).
    reflexivity.
Defined.

(** *** [handleGenerateVideo] *)

Lemma below_max t ts : In t ts -> t <= fold_right Nat.max 0 ts.
Proof.
  induction ts as [|x ts IH]; simpl; [contradiction|].
  intros [->|H]; [lia|]. specialize (IH H). lia.
Qed.

Lemma fresh_timer_cleared ts :
  filter (fun t => negb (Nat.eqb t (S (fold_right Nat.max 0 ts)))) ts = ts.
Proof.
  assert (H : forall t, In t ts -> t <= fold_right Nat.max 0 ts)
    by (intros t; apply below_max).
  revert H. generalize (fold_right Nat.max 0 ts) as m.
  induction ts as [|x ts IH]; intros m H; simpl; [reflexivity|].
  assert (Hx : Nat.eqb x (S m) = false).
  { apply Nat.eqb_neq. specialize (H x (or_introl eq_refl)). lia. }
  rewrite Hx. simpl. f_equal. apply IH. intros t Ht. apply H. now right.
Qed.

(** X11: [handleGenerateVideo] writes the video cells and the timer and
    nothing else.  Up to the [await]: without a script or an image it only
    sets the video error; otherwise it turns [isVideoLoading] on, clears
    the video URL and the video error, shows the first loading message and
    starts one new interval timer, which [loadingIntervalRef] then names.
    When the awaited calls have settled, in whatever state [App] is then:
    [isVideoLoading] is turned off and the timer that [loadingIntervalRef]
    names is stopped; a returned URL is stored and the video error is
    left as it is; a thrown value's message is stored as the video error
    and the video URL is left as it is, so both can be set when another
    call settled in between.  If nothing happened in between, exactly one
    of them is set and the running timers are those from before the
    click. *)
Theorem generate_video_writes_its_cells :
  forall s,
    (let b := handleGenerateVideo_begin s in
     (imageFile b = imageFile s /\ imagePreview b = imagePreview s
      /\ productDescription b = productDescription s
      /\ adScript b = adScript s /\ error b = error s
      /\ isLoading b = isLoading s)
     /\ (isSome (adScript s) && isSome (imageFile s) = false ->
         b = setVideoError
               (Some "Cannot generate video without an ad script and product image.") s)
     /\ (isSome (adScript s) && isSome (imageFile s) = true ->
         isVideoLoading b = true /\ videoUrl b = None /\ videoError b = None
         /\ videoLoadingMessage b = hd EmptyString LOADING_MESSAGES
         /\ exists id, ~ In id (intervals s)
                       /\ loadingIntervalRef b = Some id
                       /\ intervals b = id :: intervals s))
    /\ (forall outcome,
          let e := handleGenerateVideo_settle outcome s in
          (imageFile e = imageFile s /\ imagePreview e = imagePreview s
           /\ productDescription e = productDescription s
           /\ adScript e = adScript s /\ error e = error s
           /\ isLoading e = isLoading s
           /\ videoLoadingMessage e = videoLoadingMessage s)
          /\ isVideoLoading e = false
          /\ loading_interval_running (loadingIntervalRef s) e = false
          /\ match outcome with
             | inr resultUrl =>
                 videoUrl e = Some resultUrl /\ videoError e = videoError s
             | inl err =>
                 videoError e = Some (message_or
                   "An unknown error occurred while generating the video." err)
                 /\ videoUrl e = videoUrl s
             end)
    /\ (isSome (adScript s) && isSome (imageFile s) = true ->
        forall outcome,
          let e := handleGenerateVideo_settle outcome (handleGenerateVideo_begin s) in
          intervals e = intervals s
          /\ match outcome with
             | inr resultUrl => videoUrl e = Some resultUrl /\ videoError e = None
             | inl err =>
                 videoUrl e = None
                 /\ videoError e = Some (message_or
                      "An unknown error occurred while generating the video." err)
             end).
Proof.
  intros s. destruct s as [f p d a l e vl vm vu ve ref ts].
  unfold handleGenerateVideo_begin, handleGenerateVideo_settle, run,
    clearLoadingInterval, startLoadingInterval, loading_interval_running.
  split; [|split].
  - cbn [adScript imageFile isSome].
    destruct a as [a|], f as [file|]; simpl;
      (split; [repeat split|]); (split; [try reflexivity; discriminate|]);
      try discriminate.
    intros _. repeat split.
    exists (S (fold_right Nat.max 0 ts)). repeat split.
    intros Hin. apply below_max in Hin. lia.
  - intros [err|url]; destruct ref as [id|]; simpl; repeat split;
      apply AppProperties.cleared_interval_gone.
  - cbn [adScript imageFile isSome].
    destruct a as [a|], f as [file|]; try discriminate.
    intros _ [err|url]; simpl; rewrite Nat.eqb_refl; simpl;
      rewrite fresh_timer_cleared; repeat split.
Qed.

Lemma generate_video_writes_its_cells_witness :
  (handleGenerateVideo_begin ready
   = setVideoError
       (Some "Cannot generate video without an ad script and product image.") ready)
  /\ isVideoLoading
       (handleGenerateVideo_begin (setAdScript (Some DisplaySpec.headphones) ready))
     = true
  /\ intervals
       (handleGenerateVideo_settle (inl GeminiService.quota_exceeded)
          (handleGenerateVideo_begin
             (setAdScript (Some DisplaySpec.headphones) ready)))
     = intervals (setAdScript (Some DisplaySpec.headphones) ready).
Proof.
  split; [|split].
  - apply (proj1 (proj2 (proj1 (generate_video_writes_its_cells ready)))).
    reflexivity.
  - apply (proj2 (proj2 (proj1 (generate_video_writes_its_cells
                                  (setAdScript (Some DisplaySpec.headphones) ready))))).
    reflexivity.
  - apply (proj2 (proj2 (generate_video_writes_its_cells
                           (setAdScript (Some DisplaySpec.headphones) ready)))
             eq_refl (inl GeminiService.quota_exceeded)).
Defined.

(** *** [handleFileSelect] *)

(** X12: choosing a file keeps the choice although it resets: whatever
    the state was, [handleFileSelect] leaves the chosen file set, the
    script, the errors and the video cleared, the description empty, no
    loading timer running and the preview as it was, and [App] shows the
    input form with an enabled Generate button.  The preview is written
    only when the read ends, by [reader.onloadend], which stores
    [reader.result] ([null] after a failed read) in whatever state [App]
    is then and changes nothing else. *)
Theorem file_select_resets_but_keeps_the_file :
  forall file s,
    (let b := handleFileSelect_begin file s in
     imageFile b = Some file /\ imagePreview b = imagePreview s
     /\ adScript b = None /\ error b = None /\ isLoading b = false
     /\ videoUrl b = None /\ videoError b = None /\ isVideoLoading b = false
     /\ productDescription b = EmptyString
     /\ loading_interval_running (loadingIntervalRef s) b = false
     /\ panels b = [InputForm (imagePreview s) EmptyString HandleHardReset false])
    /\ forall result,
         let e := onloadend result s in
         imagePreview e = result
         /\ imageFile e = imageFile s
         /\ productDescription e = productDescription s
         /\ adScript e = adScript s /\ isLoading e = isLoading s
         /\ error e = error s
         /\ isVideoLoading e = isVideoLoading s
         /\ videoLoadingMessage e = videoLoadingMessage s
         /\ videoUrl e = videoUrl s /\ videoError e = videoError s
         /\ loadingIntervalRef e = loadingIntervalRef s
         /\ intervals e = intervals s.
Proof.
  intros file s. split.
  - unfold handleFileSelect_begin, run.
    cbn [fold_left]. rewrite handleReset_fields.
    unfold loading_interval_running, panels, clearLoadingInterval.
    destruct s as [f p d a l e vl vm vu ve [id|] ts]; cbn;
      repeat split; apply AppProperties.cleared_interval_gone.
  - intros result. destruct s as [f p d a l e vl vm vu ve ref ts].
    repeat split.
Qed.

(** *** What [App] shows *)

(** X13: in every state [App] shows exactly one of the input form, the
    loading block and [AdDisplay]; while [isLoading] it shows the loading
    block and nothing else, not even an error. *)
Theorem one_main_panel :
  forall s,
    List.length (filter is_main (panels s)) = 1
    /\ (isLoading s = true -> panels s = [LoadingPanel]).
Proof.
  intros s. unfold panels.
  destruct s as [f p d a l e vl vm vu ve ref ts]. simpl.
  destruct a as [a|], l, e as [[|c msg]|]; simpl; split;
    try reflexivity; try discriminate.
Qed.

Lemma one_main_panel_loading s :
  isLoading s = true -> panels s = [LoadingPanel].
Proof.
  unfold panels. destruct s as [f p d a l e vl vm vu ve ref ts]. simpl.
  intros ->. destruct a, e as [[|c msg]|]; reflexivity.
Qed.

Lemma one_main_panel_witness :
  panels (setError (Some "stale") (setIsLoading true ready)) = [LoadingPanel].
Proof.
  apply (proj2 (one_main_panel (setError (Some "stale") (setIsLoading true ready)))).
  reflexivity.
Defined.

End HandlerProperties.

(** ** A session: what holds whatever the user does *)

Module SessionProperties.

Import Types App Session SessionSpec.

#[local] Opaque Js.startsWith.

Ltac bools :=
  repeat match goal with
         | H : _ && _ = true |- _ => apply andb_prop in H; destruct H
         | H : negb _ = true |- _ => apply negb_true_iff in H
         | H : Nat.eqb _ _ = true |- _ => apply Nat.eqb_eq in H
         | H : true = false |- _ => discriminate H
         | H : false = true |- _ => discriminate H
         end.

Lemma start_invariant : invariant start = true.
Proof. reflexivity. Qed.

Ltac settle_invariant :=
  simpl in *; bools; subst; simpl; rewrite ?Nat.eqb_refl; simpl;
  repeat (apply andb_true_intro; split);
  try reflexivity; try discriminate; try assumption;
  try (repeat match goal with
              | H : isSome ?x = _ |- _ =>
                  destruct x; simpl in *; try discriminate H; clear H
              end;
       bools; try reflexivity; try discriminate; try assumption).

Lemma step_keeps_invariant w a :
  invariant w = true -> enabled w a = true -> invariant (step a w) = true.
Proof.
  destruct w as [s r sc vc].
  unfold invariant, image_ok, timers_ok, calls_ok, loading_ok, script_ok,
    enabled, formShown, displayShown, positive, is_image.
  intros Hinv Hen.
  unfold step, with_ui, handleFileSelect_begin, onloadend, loadingTick, run.
  cbn [fold_left ui reads scriptCalls videoCalls] in *.
  destruct a as [files|result| |description| |outcome| | | |outcome| ].
  - (* FilesChosen *)
    unfold ImageUploader.handleFileChange.
    destruct files as [[|file rest]|]; try exact Hinv.
    destruct (Js.startsWith "image/" (file_type file)) eqn:Himg;
      [|exact Hinv].
    cbv beta iota. cbn [ui scriptCalls].
    rewrite HandlerProperties.handleReset_fields.
    unfold clearLoadingInterval.
    destruct s as [f p d a l e vl vm vu ve [id|] [|t [|t' ts]]];
      destruct a, l; try discriminate Hen; cbn in *;
      rewrite ?Himg; settle_invariant.
  - (* ReadFinished *)
    destruct s as [f p d a l e vl vm vu ve ref ts]. exact Hinv.
  - (* ClickRemoveImage *)
    rewrite HandlerProperties.handleHardReset_fields.
    unfold clearLoadingInterval.
    destruct s as [f p d a l e vl vm vu ve [id|] [|t [|t' ts]]];
      destruct a, l; try discriminate Hen; settle_invariant.
  - (* TypeDescription *)
    destruct s as [f p d a l e vl vm vu ve ref ts]. exact Hinv.
  - (* ClickGenerateScript *)
    unfold handleGenerateScript_begin, run.
    destruct s as [f p d a l e vl vm vu ve ref ts].
    destruct a, l, f; try discriminate Hen. settle_invariant.
  - (* ScriptSettled *)
    unfold handleGenerateScript_settle.
    destruct s as [f p d a l e vl vm vu ve ref ts].
    destruct l; [|settle_invariant].
    destruct f, outcome as [err|[result|]]; settle_invariant.
  - (* ClickTryAgain *)
    rewrite HandlerProperties.handleHardReset_fields.
    unfold clearLoadingInterval.
    destruct s as [f p d a l e vl vm vu ve [id|] [|t [|t' ts]]];
      (destruct l; [settle_invariant|]); settle_invariant.
  - (* ClickNewScript *)
    rewrite HandlerProperties.handleReset_fields.
    unfold clearLoadingInterval.
    destruct s as [f p d a l e vl vm vu ve [id|] [|t [|t' ts]]];
      destruct a, l; try discriminate Hen; settle_invariant.
  - (* ClickGenerateVideo *)
    unfold handleGenerateVideo_begin, run, startLoadingInterval.
    destruct s as [f p d a l e vl vm vu ve ref [|t [|t' ts]]];
      destruct a, l, vl; try discriminate Hen;
      destruct f; settle_invariant.
  - (* VideoSettled *)
    unfold handleGenerateVideo_settle, run, clearLoadingInterval.
    destruct s as [f p d a l e vl vm vu ve [id|] [|t [|t' ts]]];
      destruct outcome as [err|url]; settle_invariant.
  - (* LoadingTick *)
    destruct s as [f p d a l e vl vm vu ve ref ts]. exact Hinv.
Qed.

(** Every world of a session satisfies the invariant. *)
Lemma reachable_invariant w : Reachable w -> invariant w = true.
Proof.
  induction 1 as [|w a _ IH Hen]; [apply start_invariant|].
  now apply step_keeps_invariant.
Qed.

Lemma play_reachable actions : forall w w',
  Reachable w -> play actions w = Some w' -> Reachable w'.
Proof.
  induction actions as [|a rest IH]; intros w w' Hw H; simpl in H.
  - now injection H as <-.
  - destruct (enabled w a) eqn:Hen; [|discriminate H].
    apply (IH (step a w)); [now apply reach_step|exact H].
Qed.

Lemma invariant_parts w :
  invariant w = true ->
  image_ok (ui w) = true /\ timers_ok (ui w) = true /\ calls_ok w = true
  /\ loading_ok (ui w) = true /\ script_ok (ui w) = true.
Proof.
  unfold invariant. intros H.
  repeat (apply andb_prop in H; destruct H as [H ?]). repeat split; assumption.
Qed.

Lemma chosen_reachable : Reachable chosen.
Proof. apply reach_step; [apply reach_start|vm_compute; reflexivity]. Qed.

Lemma loading_reachable : Reachable loading.
Proof. apply reach_step; [apply chosen_reachable|vm_compute; reflexivity]. Qed.

Lemma shown_reachable : Reachable shown.
Proof. apply reach_step; [apply loading_reachable|vm_compute; reflexivity]. Qed.

Lemma filming_reachable : Reachable filming.
Proof. apply reach_step; [apply shown_reachable|vm_compute; reflexivity]. Qed.

(** X14: whatever the user does, the file held by [App] is an image: its
    type starts with [image/]. *)
Theorem selected_file_is_an_image :
  forall w file,
    Reachable w ->
    imageFile (ui w) = Some file ->
    Js.startsWith "image/" (file_type file) = true.
Proof.
  intros w file Hw Hf.
  destruct (invariant_parts w (reachable_invariant w Hw)) as (Hi & _).
  unfold image_ok in Hi. now rewrite Hf in Hi.
Qed.

Lemma selected_file_is_an_image_witness :
  Js.startsWith "image/" (file_type photo) = true.
Proof.
  apply (selected_file_is_an_image chosen photo).
  - apply chosen_reachable.
  - vm_compute. reflexivity.
Defined.

(** X15: at most one script generation is in flight at any time; one is
    in flight exactly while [isLoading] holds, and then [App] shows the
    loading block and nothing else, so that no second one can be
    started. *)
Theorem one_script_call_at_a_time :
  forall w,
    Reachable w ->
    scriptCalls w <= 1
    /\ (scriptCalls w = 1 <-> isLoading (ui w) = true)
    /\ (scriptCalls w = 1 ->
        panels (ui w) = [LoadingPanel]
        /\ enabled w ClickGenerateScript = false).
Proof.
  intros w Hw.
  destruct (invariant_parts w (reachable_invariant w Hw)) as (_ & _ & Hc & _).
  unfold calls_ok in Hc. apply Nat.eqb_eq in Hc.
  destruct (isLoading (ui w)) eqn:Hl; rewrite Hc.
  - split; [lia|]. split; [tauto|]. intros _. split.
    + now apply HandlerProperties.one_main_panel_loading.
    + unfold enabled, formShown. rewrite Hl.
      now rewrite !andb_false_r.
  - split; [lia|]. split; [split; discriminate|discriminate].
Qed.

Lemma one_script_call_at_a_time_witness :
  scriptCalls loading <= 1 /\ panels (ui loading) = [LoadingPanel].
Proof.
  destruct (one_script_call_at_a_time loading loading_reachable)
    as (H1 & _ & H3).
  split; [exact H1|]. apply H3. vm_compute. reflexivity.
Defined.

(** X16: whenever [AdDisplay] is on screen it is the only block (no
    error block beside it) and a file is selected. *)
Theorem display_is_shown_alone :
  forall w a onReset video failure loading,
    Reachable w ->
    In (AdDisplayPanel a onReset video failure loading) (panels (ui w)) ->
    panels (ui w) = [AdDisplayPanel a onReset video failure loading]
    /\ isSome (imageFile (ui w)) = true
    /\ error (ui w) = None.
Proof.
  intros w a onReset video failure loading Hw Hin.
  destruct (invariant_parts w (reachable_invariant w Hw))
    as (_ & _ & _ & _ & Hs).
  unfold script_ok in Hs. unfold panels in *.
  destruct (ui w) as [f p d s l e vl vm vu ve ref ts]. simpl in *.
  destruct s as [s|], l; simpl in *;
    try (destruct e as [[|c m]|]; simpl in Hin;
         repeat (destruct Hin as [Hin|Hin]; try discriminate Hin);
         contradiction).
  apply andb_prop in Hs. destruct Hs as [Hf He].
  destruct e; [discriminate He|]. simpl in Hin.
  destruct Hin as [Hin|[]]. rewrite Hin. repeat split. exact Hf.
Qed.

Lemma display_is_shown_alone_witness :
  panels (ui shown)
  = [AdDisplayPanel DisplaySpec.headphones HandleReset None None false].
Proof.
  apply (proj1 (display_is_shown_alone shown DisplaySpec.headphones
                  HandleReset None None false shown_reachable
                  ltac:(vm_compute; left; reflexivity))).
Defined.

(** X17: at most one loading-message timer runs at any time, it is the
    one [loadingIntervalRef] names, and none runs unless
    [isVideoLoading]: resets and settled calls leave no timer behind. *)
Theorem no_timer_is_left_behind :
  forall w,
    Reachable w ->
    List.length (intervals (ui w)) <= 1
    /\ (isVideoLoading (ui w) = false -> intervals (ui w) = [])
    /\ (forall id, In id (intervals (ui w)) ->
                   loadingIntervalRef (ui w) = Some id).
Proof.
  intros w Hw.
  destruct (invariant_parts w (reachable_invariant w Hw)) as (_ & Ht & _).
  unfold timers_ok in Ht.
  destruct (intervals (ui w)) as [|t [|t' ts]]; simpl.
  - repeat split; [lia|intros id []].
  - apply andb_prop in Ht. destruct Ht as [Hv Hr].
    destruct (loadingIntervalRef (ui w)) as [r|]; [|discriminate Hr].
    apply Nat.eqb_eq in Hr. subst r.
    repeat split; [lia|rewrite Hv; discriminate|].
    intros id [<-|[]]. reflexivity.
  - discriminate Ht.
Qed.

Lemma no_timer_is_left_behind_witness :
  List.length (intervals (ui filming)) <= 1
  /\ intervals (ui shown) = [].
Proof.
  split.
  - apply (no_timer_is_left_behind filming filming_reachable).
  - apply (proj1 (proj2 (no_timer_is_left_behind shown shown_reachable))).
    vm_compute. reflexivity.
Defined.

(** X18: the buttons that start a generation are only there when the
    handler's guard passes: a click on Generate Script always starts a
    call and clears the error, and a click on Generate Video (or Retry)
    always starts a call with the first loading message, so that neither
    guard message can come from a click. *)
Theorem clicks_pass_the_guards :
  forall w,
    Reachable w ->
    (enabled w ClickGenerateScript = true ->
     scriptCalls (step ClickGenerateScript w) = 1
     /\ isLoading (ui (step ClickGenerateScript w)) = true
     /\ error (ui (step ClickGenerateScript w)) = None)
    /\ (enabled w ClickGenerateVideo = true ->
        videoCalls (step ClickGenerateVideo w) = S (videoCalls w)
        /\ isVideoLoading (ui (step ClickGenerateVideo w)) = true
        /\ videoError (ui (step ClickGenerateVideo w)) = None
        /\ videoLoadingMessage (ui (step ClickGenerateVideo w))
           = hd EmptyString LOADING_MESSAGES).
Proof.
  intros w Hw.
  destruct (invariant_parts w (reachable_invariant w Hw))
    as (_ & _ & Hc & _ & Hs).
  unfold calls_ok in Hc. unfold script_ok in Hs.
  unfold enabled, formShown, displayShown, step,
    handleGenerateScript_begin, handleGenerateVideo_begin, run,
    startLoadingInterval.
  destruct w as [[f p d s l e vl vm vu ve ref ts] r sc vc]. simpl in *.
  split; intros Hen.
  - destruct s, l, f; try discriminate Hen. simpl.
    apply Nat.eqb_eq in Hc. subst sc. repeat split.
  - destruct s, l, vl; try discriminate Hen. simpl in *.
    destruct f; [|discriminate Hs]. repeat split.
Qed.

Lemma clicks_pass_the_guards_witness :
  scriptCalls (step ClickGenerateScript chosen) = 1
  /\ videoCalls (step ClickGenerateVideo shown) = S (videoCalls shown).
Proof.
  split.
  - apply (proj1 (clicks_pass_the_guards chosen chosen_reachable)).
    vm_compute. reflexivity.
  - apply (proj2 (clicks_pass_the_guards shown shown_reachable)).
    vm_compute. reflexivity.
Defined.

(** X19: a reset does not cancel a video generation that is running.
    After Generate Video, New Script, a second script and the late arrival
    of the first video, [App] shows the second script with the video made
    for the first; and when Generate Video is clicked for the second
    script before the first video has arrived, two video generations are
    in flight. *)
Theorem reset_does_not_cancel_the_video :
  forall first second url,
    (exists w,
        play (late_video first second url) start = Some w
        /\ Reachable w
        /\ adScript (ui w) = Some second
        /\ panels (ui w)
           = [AdDisplayPanel second HandleReset (Some url) None false])
    /\ (exists w,
          play (two_videos first second) start = Some w
          /\ Reachable w
          /\ videoCalls w = 2).
Proof.
  intros first second url. split.
  - destruct (play (late_video first second url) start) as [w|] eqn:E;
      [|vm_compute in E; discriminate E].
    exists w. split; [reflexivity|].
    split; [exact (play_reachable _ start w reach_start E)|].
    vm_compute in E. injection E as <-. split; reflexivity.
  - destruct (play (two_videos first second) start) as [w|] eqn:E;
      [|vm_compute in E; discriminate E].
    exists w. split; [reflexivity|].
    split; [exact (play_reachable _ start w reach_start E)|].
    vm_compute in E. injection E as <-. reflexivity.
Qed.

End SessionProperties.

(** ** From the service to the screen *)

Module EndToEnd.

Import Types App Session SessionSpec.

Lemma url_with_key_is_truthy link key :
  Js.truthy_string (link ++ "&key=" ++ key) = true.
Proof. destruct link; reflexivity. Qed.

(** What [generateAdVideo] returns is never the empty string. *)
Lemma returned_url_is_truthy env sdk ai fuel prompt base64Image mimeType url :
  Effect.completion
    (GeminiService.generateAdVideo env sdk ai fuel prompt base64Image mimeType)
  = Effect.Returned url ->
  Js.truthy_string url = true.
Proof.
  intros Hc.
  rewrite VideoFacts.video_completion, VideoFacts.video_try_completion in Hc.
  destruct (GeminiService.generateVideos sdk _); [discriminate Hc|].
  destruct (Effect.completion (GeminiService.poll _ _ _ _));
    try discriminate Hc.
  destruct (Js.truthy _); [|discriminate Hc].
  injection Hc as <-. apply url_with_key_is_truthy.
Qed.

(** While a script call is in flight, in a session: [App] is loading,
    with an image and with neither a script nor an error. *)
Lemma script_in_flight w :
  Reachable w -> scriptCalls w <> 0 ->
  isLoading (ui w) = true /\ isSome (imageFile (ui w)) = true
  /\ error (ui w) = None /\ adScript (ui w) = None.
Proof.
  intros Hr Hc.
  destruct (SessionProperties.invariant_parts w
              (SessionProperties.reachable_invariant w Hr))
    as (_ & _ & Hcalls & Hload & _).
  unfold calls_ok in Hcalls. unfold loading_ok in Hload.
  destruct (isLoading (ui w)).
  - apply andb_prop in Hload. destruct Hload as [Hload Hs].
    apply andb_prop in Hload. destruct Hload as [Hf He].
    destruct (error (ui w)); [discriminate He|].
    destruct (adScript (ui w)); [discriminate Hs|].
    repeat split. exact Hf.
  - apply Nat.eqb_eq in Hcalls. contradiction.
Qed.

(** X20: what [App] shows when the [generateAdScript] call of a click on
    Generate Script settles, in any state a session can be in with the
    call in flight.  If the call returned a value of the shape of
    [AdScript], [App] shows [AdDisplay] for it, with the video state there
    is, and nothing else.  If it returned [null], [App] shows the input
    form alone, with no message.  If it threw, what it threw carries one
    of the two messages of the service, and [App] shows the input form
    and the error block with that message.  (A returned value that is
    neither [null] nor of the shape of [AdScript] is not covered.) *)
Theorem script_click_shows_script_or_message :
  forall w sdk JSON_parse ai base64Image mimeType description,
    Reachable w ->
    scriptCalls w <> 0 ->
    match Effect.completion
            (GeminiService.generateAdScript sdk JSON_parse ai base64Image
               mimeType description) with
    | Effect.Returned v =>
        (forall a, as_AdScript v = Some a ->
           panels (ui (step (ScriptSettled (inr (Some a))) w))
           = [AdDisplayPanel a HandleReset (videoUrl (ui w)) (videoError (ui w))
                             (isVideoLoading (ui w))])
        /\ (v = Js.VNull ->
            panels (ui (step (ScriptSettled (inr None)) w))
            = [InputForm (imagePreview (ui w)) (productDescription (ui w))
                         HandleHardReset false])
    | Effect.Threw t =>
        exists msg,
          (msg = "API rate limit exceeded. Please try again later."
           \/ msg = "Failed to generate ad script. The model may have returned an invalid response.")
          /\ message_or "An unknown error occurred. Please check the console." t
             = msg
          /\ panels (ui (step (ScriptSettled (inl t)) w))
             = [InputForm (imagePreview (ui w)) (productDescription (ui w))
                          HandleHardReset false;
                ErrorPanel msg HandleHardReset]
    | Effect.Pending => True
    end.
Proof.
  intros w sdk JSON_parse ai base64Image mimeType description Hr Hcalls.
  destruct (script_in_flight w Hr Hcalls) as (Hl & Hf & He & Ha).
  destruct w as [s r sc vc].
  destruct s as [f p d a l e vl vm vu ve ref ts].
  cbn [ui isLoading imageFile error adScript] in Hl, Hf, He, Ha. subst l e a.
  destruct f as [file|]; [clear Hf|discriminate Hf].
  destruct (Effect.completion (GeminiService.generateAdScript _ _ _ _ _ _))
    as [v|t|] eqn:Hc; [| |exact I].
  - split; [intros a _|intros _]; reflexivity.
  - destruct (ServiceProperties.script_throws_own_errors_cases
                _ _ _ _ _ _ _ Hc) as [->| ->].
    + exists "API rate limit exceeded. Please try again later.".
      split; [now left|split; reflexivity].
    + exists "Failed to generate ad script. The model may have returned an invalid response.".
      split; [now right|split; reflexivity].
Qed.

(** The script call of [loading] throws: the form and the message. *)
Lemma script_click_shows_script_or_message_witness :
  exists msg,
    (msg = "API rate limit exceeded. Please try again later."
     \/ msg = "Failed to generate ad script. The model may have returned an invalid response.")
    /\ message_or "An unknown error occurred. Please check the console."
         GeminiService.rate_limit_exceeded = msg
    /\ panels (ui (step (ScriptSettled (inl GeminiService.rate_limit_exceeded))
                     loading))
       = [InputForm (imagePreview (ui loading)) (productDescription (ui loading))
                    HandleHardReset false;
          ErrorPanel msg HandleHardReset].
Proof.
  exact (script_click_shows_script_or_message loading
           (Scenarios.content_sdk (inl Scenarios.token_limit_error))
           JsonReader.parse Scenarios.some_ai "aGVhZA==" "image/png"
           "wireless headphones"
           SessionProperties.loading_reachable
           ltac:(vm_compute; discriminate)).
Defined.

(** X21: what the video section of [AdDisplay] shows when the
    [generateAdVideo] call of a click on Generate Video settles, in
    whatever state [App] is then.  The loader is gone.  If the call
    returned a URL, the player is shown on it, with the download name made
    from the title, below the failure block of an earlier call if the
    video error is still set.  If the call threw, the failure block is
    shown with one of the two messages of the service, above the player
    of an earlier call if the video URL is still set.  When nothing
    happened since the click, the player or the failure block is shown
    alone. *)
Theorem video_click_shows_player_or_message :
  forall env sdk ai fuel prompt base64Image mimeType a s,
    match Effect.completion
            (GeminiService.generateAdVideo env sdk ai fuel prompt base64Image
               mimeType) with
    | Effect.Returned url =>
        videoSection_of a (handleGenerateVideo_settle (inr url) s)
        = ((match videoError s with
            | Some earlier =>
                if Js.truthy_string earlier
                then [AdDisplay.VideoFailure earlier] else []
            | None => []
            end)
           ++ [AdDisplay.VideoPlayer url (AdDisplay.downloadName a)])%list
        /\ (isSome (adScript s) && isSome (imageFile s) = true ->
            videoSection_of a
              (handleGenerateVideo_settle (inr url) (handleGenerateVideo_begin s))
            = [AdDisplay.VideoPlayer url (AdDisplay.downloadName a)])
    | Effect.Threw t =>
        exists msg,
          (msg = "API quota exceeded. Please check your plan and billing details, or try again later."
           \/ msg = "Failed to generate video ad. An unexpected error occurred.")
          /\ videoSection_of a (handleGenerateVideo_settle (inl t) s)
             = (AdDisplay.VideoFailure msg
                :: match videoUrl s with
                   | Some earlier =>
                       if Js.truthy_string earlier
                       then [AdDisplay.VideoPlayer earlier (AdDisplay.downloadName a)]
                       else []
                   | None => []
                   end)
          /\ (isSome (adScript s) && isSome (imageFile s) = true ->
              videoSection_of a
                (handleGenerateVideo_settle (inl t) (handleGenerateVideo_begin s))
              = [AdDisplay.VideoFailure msg])
    | Effect.Pending => True
    end.
Proof.
  intros env sdk ai fuel prompt base64Image mimeType a s.
  destruct (Effect.completion (GeminiService.generateAdVideo _ _ _ _ _ _ _))
    as [url|t|] eqn:Hc; [| |exact I].
  - pose proof (returned_url_is_truthy _ _ _ _ _ _ _ _ Hc) as Hurl.
    destruct s as [f p d sc l e vl vm vu ve ref ts].
    unfold videoSection_of, AdDisplay.videoSection, handleGenerateVideo_settle,
      handleGenerateVideo_begin, run, clearLoadingInterval.
    split.
    + destruct ref as [id|]; simpl; rewrite Hurl;
        destruct ve as [earlier|]; simpl; rewrite ?andb_true_r; reflexivity.
    + cbn [adScript imageFile isSome].
      destruct sc as [sc|], f as [file|]; try discriminate.
      intros _. simpl. rewrite Hurl. reflexivity.
  - destruct (ServiceProperties.video_throws_own_errors_cases
                _ _ _ _ _ _ _ _ Hc) as [->| ->];
      [exists "API quota exceeded. Please check your plan and billing details, or try again later."
      |exists "Failed to generate video ad. An unexpected error occurred."];
      (split; [auto|]);
      destruct s as [f p d sc l e vl vm vu ve ref ts];
      unfold videoSection_of, AdDisplay.videoSection, handleGenerateVideo_settle,
        handleGenerateVideo_begin, run, clearLoadingInterval;
      (split;
       [destruct ref as [id|]; simpl;
        destruct vu as [earlier|]; simpl; rewrite ?andb_true_r; reflexivity
       |cbn [adScript imageFile isSome];
        destruct sc as [sc|], f as [file|]; try discriminate;
        intros _; reflexivity]).
Qed.

(** A video call that completes on the second status check, settling
    right after the click: the player alone. *)
Lemma video_click_shows_player_or_message_witness :
  videoSection_of DisplaySpec.headphones
    (handleGenerateVideo_settle
       (inr "https://videos.example/v1?alt=media&key=test-key")
       (handleGenerateVideo_begin (ui shown)))
  = [AdDisplay.VideoPlayer "https://videos.example/v1?alt=media&key=test-key"
       (AdDisplay.downloadName DisplaySpec.headphones)].
Proof.
  exact (proj2 (video_click_shows_player_or_message
                  {| GeminiService.API_KEY := Some "test-key" |}
                  (Scenarios.finishing_sdk 2
                     (Scenarios.finished_with (Some Scenarios.video_link)))
                  Scenarios.some_ai 7
                  (videoPrompt DisplaySpec.headphones) "aGVhZA==" "image/png"
                  DisplaySpec.headphones (ui shown))
               eq_refl).
Defined.

End EndToEnd.
